(** * A shallow embedding of the CDCL solver of [CDCL/cdcl_solver.py]

    The solver object [CDCLSolver] becomes a record that is passed
    explicitly; a method that mutates [self] returns the new record.
    Python exceptions ([IndexError], [KeyError], [ZeroDivisionError],
    [TypeError]) are results of their own, so that a crash is visible
    in a theorem, and the three [while] loops take fuel.

    Conventions of the translation:
    - a Python [int] is a [Z]; a counter or a list position is a [nat];
    - the arrays [value], [antecedent], [decision_level] are [list Z],
      read with stdpp's lookup and written with its insert, an index
      out of range raising [IndexError] as in Python;
    - a [set] of ints is a duplicate-free list in insertion order (the
      order in which CPython walks a set is not modelled; it only shows
      when two lists built from equal sets are compared);
    - [frozenset(sorted(clause))] is the strictly increasing list of the
      literals of the clause; a set of those is a [gset (list Z)];
    - a [dict] whose order of insertion is observed is an association
      list, the others are [gmap]s;
    - the activities are exact rationals ([Q]) where Python has floats;
    - the module [random] is a tape of draws carried by the record. *)

From Stdlib Require Import ZArith QArith List Lia Bool Lqa.
From stdpp Require Import gmap list fin_maps sorting.

#[local] Set Warnings "-clear-no-such-hyp".
Local Open Scope Z_scope.

(** ** Exceptions and results *)

Inductive exn := IndexError | KeyError | ZeroDivisionError | TypeError.

Inductive result (A : Type) : Type :=
  | Ok (a : A)
  | Raise (e : exn)
  | OutOfFuel.

Arguments Ok {A} a.
Arguments Raise {A} e.
Arguments OutOfFuel {A}.

#[global] Instance result_ret : MRet result := λ A a, Ok a.

#[global] Instance result_bind : MBind result := λ A B f m,
  match m with
  | Ok a => f a
  | Raise e => Raise e
  | OutOfFuel => OutOfFuel
  end.

(** ** Python lists *)

(** [l[i]] for an index that is known not to be negative. *)
Definition getitem {A} (l : list A) (i : nat) : result A :=
  match l !! i with
  | Some x => Ok x
  | None => Raise IndexError
  end.

(** [l[i]] for any integer: a negative index counts from the end. *)
Definition getitem_Z {A} (l : list A) (i : Z) : result A :=
  if 0 <=? i then getitem l (Z.to_nat i)
  else if - Z.of_nat (length l) <=? i
       then getitem l (Z.to_nat (Z.of_nat (length l) + i))
       else Raise IndexError.

(** [l[i] = x]. *)
Definition setitem {A} (l : list A) (i : nat) (x : A) : result (list A) :=
  if decide (i < length l)%nat then Ok (<[i:=x]> l) else Raise IndexError.

(** [l.pop()]: the last element and the list without it. *)
Definition list_pop {A} (l : list A) : option (A * list A) :=
  match reverse l with
  | [] => None
  | x :: r => Some (x, reverse r)
  end.

(** ** Python sets of ints, in insertion order *)

Definition set_add (x : Z) (l : list Z) : list Z :=
  if decide (x ∈ l) then l else l ++ [x].

Definition set_remove (x : Z) (l : list Z) : list Z :=
  filter (λ y, y ≠ x) l.

(** [set(l)] *)
Definition pyset (l : list Z) : list Z :=
  foldl (λ acc x, set_add x acc) [] l.

(** ** [frozenset(sorted(clause))] *)

Fixpoint insert_sorted (x : Z) (l : list Z) : list Z :=
  match l with
  | [] => [x]
  | y :: l' =>
      if x <? y then x :: l
      else if x =? y then l
      else y :: insert_sorted x l'
  end.

Definition frozenset_sorted (clause : list Z) : list Z :=
  foldr insert_sorted [] clause.

(** ** The module [random] *)

Record Random := {
  choices : list nat;   (* the draws of [random.choice], as positions *)
  uniforms : list Q     (* the draws of [random.uniform] *)
}.

(** [random.choice(l)]; an exhausted tape goes on with position 0. *)
Definition random_choice {A} (l : list A) (r : Random) : result (A * Random) :=
  let c := hd 0%nat (choices r) in
  let r' := {| choices := tl (choices r); uniforms := uniforms r |} in
  match l !! (c mod length l)%nat with
  | Some x => Ok (x, r')
  | None => Raise IndexError
  end.

Definition Qclamp (lo hi q : Q) : Q :=
  if Qle_bool q lo then lo else if Qle_bool hi q then hi else q.

(** [random.uniform(lo, hi)]; an exhausted tape goes on with [hi]. *)
Definition random_uniform (lo hi : Q) (r : Random) : Q * Random :=
  (Qclamp lo hi (hd hi (uniforms r)),
   {| choices := choices r; uniforms := tl (uniforms r) |}).

(** ** The solver object *)

Inductive Heuristic := random | order | twoclause | vsids.

#[global] Instance Heuristic_eq_dec : EqDecision Heuristic.
Proof. solve_decision. Defined.

Record CDCLSolver := {
  formula : list (list Z);
  num_literals : nat;
  heuristic : Heuristic;
  assigned_lits : gset nat;
  value : list Z;
  antecedent : list Z;
  decision_level : list Z;
  pick_branching_count : nat;
  assignment_history : gmap Z (list Z);
  sorted_original_formula_set : gset (list Z);
  sorted_new_clause_set : gset (list Z);
  eliminate_pure_literal : bool;
  pure_literal_count : nat;
  two_clause_dict : list (nat * Z);
  vsids_activity : gmap Z Q;
  prev_chosen_literal : Z;
  generate_proof : bool;
  kappa_conflict_clause : option Z;
  clauseid_to_parents : gmap nat (list (option Z));
  random_restart : bool;
  new_clause_limit : Q;
  random_restart_count : nat;
  rng : Random
}.

(** [CDCLSolver.__init__] *)
Definition init (formula : list (list Z)) (num_literals : nat)
    (heuristic : Heuristic)
    (generate_proof eliminate_pure_literal random_restart : bool)
    (rng : Random) : CDCLSolver :=
  {| formula := formula;
     num_literals := num_literals;
     heuristic := heuristic;
     assigned_lits := ∅;
     value := replicate (num_literals + 1) 0;
     antecedent := replicate (num_literals + 1) (-1);
     decision_level := replicate (num_literals + 1) (-1);
     pick_branching_count := 0;
     assignment_history := ∅;
     sorted_original_formula_set := ∅;
     sorted_new_clause_set := ∅;
     eliminate_pure_literal := eliminate_pure_literal;
     pure_literal_count := 0;
     two_clause_dict := [];
     vsids_activity := ∅;
     prev_chosen_literal := 0;
     generate_proof := generate_proof;
     kappa_conflict_clause := None;
     clauseid_to_parents := ∅;
     random_restart := random_restart;
     new_clause_limit := inject_Z (Z.of_nat (length formula) / 5);
     random_restart_count := 0;
     rng := rng |}.

(** ** Assignments to the attributes of [self] *)

Definition set_formula (x : list (list Z)) (s : CDCLSolver) : CDCLSolver :=
  {| formula := x; num_literals := num_literals s; heuristic := heuristic s;
     assigned_lits := assigned_lits s; value := value s;
     antecedent := antecedent s; decision_level := decision_level s;
     pick_branching_count := pick_branching_count s;
     assignment_history := assignment_history s;
     sorted_original_formula_set := sorted_original_formula_set s;
     sorted_new_clause_set := sorted_new_clause_set s;
     eliminate_pure_literal := eliminate_pure_literal s;
     pure_literal_count := pure_literal_count s;
     two_clause_dict := two_clause_dict s;
     vsids_activity := vsids_activity s;
     prev_chosen_literal := prev_chosen_literal s;
     generate_proof := generate_proof s;
     kappa_conflict_clause := kappa_conflict_clause s;
     clauseid_to_parents := clauseid_to_parents s;
     random_restart := random_restart s;
     new_clause_limit := new_clause_limit s;
     random_restart_count := random_restart_count s; rng := rng s |}.

Definition set_assigned_lits (x : gset nat) (s : CDCLSolver) : CDCLSolver :=
  {| formula := formula s; num_literals := num_literals s;
     heuristic := heuristic s; assigned_lits := x; value := value s;
     antecedent := antecedent s; decision_level := decision_level s;
     pick_branching_count := pick_branching_count s;
     assignment_history := assignment_history s;
     sorted_original_formula_set := sorted_original_formula_set s;
     sorted_new_clause_set := sorted_new_clause_set s;
     eliminate_pure_literal := eliminate_pure_literal s;
     pure_literal_count := pure_literal_count s;
     two_clause_dict := two_clause_dict s;
     vsids_activity := vsids_activity s;
     prev_chosen_literal := prev_chosen_literal s;
     generate_proof := generate_proof s;
     kappa_conflict_clause := kappa_conflict_clause s;
     clauseid_to_parents := clauseid_to_parents s;
     random_restart := random_restart s;
     new_clause_limit := new_clause_limit s;
     random_restart_count := random_restart_count s; rng := rng s |}.

Definition set_value (x : list Z) (s : CDCLSolver) : CDCLSolver :=
  {| formula := formula s; num_literals := num_literals s;
     heuristic := heuristic s; assigned_lits := assigned_lits s; value := x;
     antecedent := antecedent s; decision_level := decision_level s;
     pick_branching_count := pick_branching_count s;
     assignment_history := assignment_history s;
     sorted_original_formula_set := sorted_original_formula_set s;
     sorted_new_clause_set := sorted_new_clause_set s;
     eliminate_pure_literal := eliminate_pure_literal s;
     pure_literal_count := pure_literal_count s;
     two_clause_dict := two_clause_dict s;
     vsids_activity := vsids_activity s;
     prev_chosen_literal := prev_chosen_literal s;
     generate_proof := generate_proof s;
     kappa_conflict_clause := kappa_conflict_clause s;
     clauseid_to_parents := clauseid_to_parents s;
     random_restart := random_restart s;
     new_clause_limit := new_clause_limit s;
     random_restart_count := random_restart_count s; rng := rng s |}.

Definition set_antecedent (x : list Z) (s : CDCLSolver) : CDCLSolver :=
  {| formula := formula s; num_literals := num_literals s;
     heuristic := heuristic s; assigned_lits := assigned_lits s;
     value := value s; antecedent := x; decision_level := decision_level s;
     pick_branching_count := pick_branching_count s;
     assignment_history := assignment_history s;
     sorted_original_formula_set := sorted_original_formula_set s;
     sorted_new_clause_set := sorted_new_clause_set s;
     eliminate_pure_literal := eliminate_pure_literal s;
     pure_literal_count := pure_literal_count s;
     two_clause_dict := two_clause_dict s;
     vsids_activity := vsids_activity s;
     prev_chosen_literal := prev_chosen_literal s;
     generate_proof := generate_proof s;
     kappa_conflict_clause := kappa_conflict_clause s;
     clauseid_to_parents := clauseid_to_parents s;
     random_restart := random_restart s;
     new_clause_limit := new_clause_limit s;
     random_restart_count := random_restart_count s; rng := rng s |}.

Definition set_decision_level (x : list Z) (s : CDCLSolver) : CDCLSolver :=
  {| formula := formula s; num_literals := num_literals s;
     heuristic := heuristic s; assigned_lits := assigned_lits s;
     value := value s; antecedent := antecedent s; decision_level := x;
     pick_branching_count := pick_branching_count s;
     assignment_history := assignment_history s;
     sorted_original_formula_set := sorted_original_formula_set s;
     sorted_new_clause_set := sorted_new_clause_set s;
     eliminate_pure_literal := eliminate_pure_literal s;
     pure_literal_count := pure_literal_count s;
     two_clause_dict := two_clause_dict s;
     vsids_activity := vsids_activity s;
     prev_chosen_literal := prev_chosen_literal s;
     generate_proof := generate_proof s;
     kappa_conflict_clause := kappa_conflict_clause s;
     clauseid_to_parents := clauseid_to_parents s;
     random_restart := random_restart s;
     new_clause_limit := new_clause_limit s;
     random_restart_count := random_restart_count s; rng := rng s |}.

Definition set_pick_branching_count (x : nat) (s : CDCLSolver) : CDCLSolver :=
  {| formula := formula s; num_literals := num_literals s;
     heuristic := heuristic s; assigned_lits := assigned_lits s;
     value := value s; antecedent := antecedent s;
     decision_level := decision_level s; pick_branching_count := x;
     assignment_history := assignment_history s;
     sorted_original_formula_set := sorted_original_formula_set s;
     sorted_new_clause_set := sorted_new_clause_set s;
     eliminate_pure_literal := eliminate_pure_literal s;
     pure_literal_count := pure_literal_count s;
     two_clause_dict := two_clause_dict s;
     vsids_activity := vsids_activity s;
     prev_chosen_literal := prev_chosen_literal s;
     generate_proof := generate_proof s;
     kappa_conflict_clause := kappa_conflict_clause s;
     clauseid_to_parents := clauseid_to_parents s;
     random_restart := random_restart s;
     new_clause_limit := new_clause_limit s;
     random_restart_count := random_restart_count s; rng := rng s |}.

Definition set_assignment_history (x : gmap Z (list Z)) (s : CDCLSolver) : CDCLSolver :=
  {| formula := formula s; num_literals := num_literals s;
     heuristic := heuristic s; assigned_lits := assigned_lits s;
     value := value s; antecedent := antecedent s;
     decision_level := decision_level s;
     pick_branching_count := pick_branching_count s; assignment_history := x;
     sorted_original_formula_set := sorted_original_formula_set s;
     sorted_new_clause_set := sorted_new_clause_set s;
     eliminate_pure_literal := eliminate_pure_literal s;
     pure_literal_count := pure_literal_count s;
     two_clause_dict := two_clause_dict s;
     vsids_activity := vsids_activity s;
     prev_chosen_literal := prev_chosen_literal s;
     generate_proof := generate_proof s;
     kappa_conflict_clause := kappa_conflict_clause s;
     clauseid_to_parents := clauseid_to_parents s;
     random_restart := random_restart s;
     new_clause_limit := new_clause_limit s;
     random_restart_count := random_restart_count s; rng := rng s |}.

Definition set_sorted_original_formula_set (x : gset (list Z)) (s : CDCLSolver) : CDCLSolver :=
  {| formula := formula s; num_literals := num_literals s;
     heuristic := heuristic s; assigned_lits := assigned_lits s;
     value := value s; antecedent := antecedent s;
     decision_level := decision_level s;
     pick_branching_count := pick_branching_count s;
     assignment_history := assignment_history s;
     sorted_original_formula_set := x;
     sorted_new_clause_set := sorted_new_clause_set s;
     eliminate_pure_literal := eliminate_pure_literal s;
     pure_literal_count := pure_literal_count s;
     two_clause_dict := two_clause_dict s;
     vsids_activity := vsids_activity s;
     prev_chosen_literal := prev_chosen_literal s;
     generate_proof := generate_proof s;
     kappa_conflict_clause := kappa_conflict_clause s;
     clauseid_to_parents := clauseid_to_parents s;
     random_restart := random_restart s;
     new_clause_limit := new_clause_limit s;
     random_restart_count := random_restart_count s; rng := rng s |}.

Definition set_sorted_new_clause_set (x : gset (list Z)) (s : CDCLSolver) : CDCLSolver :=
  {| formula := formula s; num_literals := num_literals s;
     heuristic := heuristic s; assigned_lits := assigned_lits s;
     value := value s; antecedent := antecedent s;
     decision_level := decision_level s;
     pick_branching_count := pick_branching_count s;
     assignment_history := assignment_history s;
     sorted_original_formula_set := sorted_original_formula_set s;
     sorted_new_clause_set := x;
     eliminate_pure_literal := eliminate_pure_literal s;
     pure_literal_count := pure_literal_count s;
     two_clause_dict := two_clause_dict s;
     vsids_activity := vsids_activity s;
     prev_chosen_literal := prev_chosen_literal s;
     generate_proof := generate_proof s;
     kappa_conflict_clause := kappa_conflict_clause s;
     clauseid_to_parents := clauseid_to_parents s;
     random_restart := random_restart s;
     new_clause_limit := new_clause_limit s;
     random_restart_count := random_restart_count s; rng := rng s |}.

Definition set_pure_literal_count (x : nat) (s : CDCLSolver) : CDCLSolver :=
  {| formula := formula s; num_literals := num_literals s;
     heuristic := heuristic s; assigned_lits := assigned_lits s;
     value := value s; antecedent := antecedent s;
     decision_level := decision_level s;
     pick_branching_count := pick_branching_count s;
     assignment_history := assignment_history s;
     sorted_original_formula_set := sorted_original_formula_set s;
     sorted_new_clause_set := sorted_new_clause_set s;
     eliminate_pure_literal := eliminate_pure_literal s;
     pure_literal_count := x; two_clause_dict := two_clause_dict s;
     vsids_activity := vsids_activity s;
     prev_chosen_literal := prev_chosen_literal s;
     generate_proof := generate_proof s;
     kappa_conflict_clause := kappa_conflict_clause s;
     clauseid_to_parents := clauseid_to_parents s;
     random_restart := random_restart s;
     new_clause_limit := new_clause_limit s;
     random_restart_count := random_restart_count s; rng := rng s |}.

Definition set_two_clause_dict (x : list (nat * Z)) (s : CDCLSolver) : CDCLSolver :=
  {| formula := formula s; num_literals := num_literals s;
     heuristic := heuristic s; assigned_lits := assigned_lits s;
     value := value s; antecedent := antecedent s;
     decision_level := decision_level s;
     pick_branching_count := pick_branching_count s;
     assignment_history := assignment_history s;
     sorted_original_formula_set := sorted_original_formula_set s;
     sorted_new_clause_set := sorted_new_clause_set s;
     eliminate_pure_literal := eliminate_pure_literal s;
     pure_literal_count := pure_literal_count s; two_clause_dict := x;
     vsids_activity := vsids_activity s;
     prev_chosen_literal := prev_chosen_literal s;
     generate_proof := generate_proof s;
     kappa_conflict_clause := kappa_conflict_clause s;
     clauseid_to_parents := clauseid_to_parents s;
     random_restart := random_restart s;
     new_clause_limit := new_clause_limit s;
     random_restart_count := random_restart_count s; rng := rng s |}.

Definition set_vsids_activity (x : gmap Z Q) (s : CDCLSolver) : CDCLSolver :=
  {| formula := formula s; num_literals := num_literals s;
     heuristic := heuristic s; assigned_lits := assigned_lits s;
     value := value s; antecedent := antecedent s;
     decision_level := decision_level s;
     pick_branching_count := pick_branching_count s;
     assignment_history := assignment_history s;
     sorted_original_formula_set := sorted_original_formula_set s;
     sorted_new_clause_set := sorted_new_clause_set s;
     eliminate_pure_literal := eliminate_pure_literal s;
     pure_literal_count := pure_literal_count s;
     two_clause_dict := two_clause_dict s; vsids_activity := x;
     prev_chosen_literal := prev_chosen_literal s;
     generate_proof := generate_proof s;
     kappa_conflict_clause := kappa_conflict_clause s;
     clauseid_to_parents := clauseid_to_parents s;
     random_restart := random_restart s;
     new_clause_limit := new_clause_limit s;
     random_restart_count := random_restart_count s; rng := rng s |}.

Definition set_prev_chosen_literal (x : Z) (s : CDCLSolver) : CDCLSolver :=
  {| formula := formula s; num_literals := num_literals s;
     heuristic := heuristic s; assigned_lits := assigned_lits s;
     value := value s; antecedent := antecedent s;
     decision_level := decision_level s;
     pick_branching_count := pick_branching_count s;
     assignment_history := assignment_history s;
     sorted_original_formula_set := sorted_original_formula_set s;
     sorted_new_clause_set := sorted_new_clause_set s;
     eliminate_pure_literal := eliminate_pure_literal s;
     pure_literal_count := pure_literal_count s;
     two_clause_dict := two_clause_dict s;
     vsids_activity := vsids_activity s; prev_chosen_literal := x;
     generate_proof := generate_proof s;
     kappa_conflict_clause := kappa_conflict_clause s;
     clauseid_to_parents := clauseid_to_parents s;
     random_restart := random_restart s;
     new_clause_limit := new_clause_limit s;
     random_restart_count := random_restart_count s; rng := rng s |}.

Definition set_kappa_conflict_clause (x : option Z) (s : CDCLSolver) : CDCLSolver :=
  {| formula := formula s; num_literals := num_literals s;
     heuristic := heuristic s; assigned_lits := assigned_lits s;
     value := value s; antecedent := antecedent s;
     decision_level := decision_level s;
     pick_branching_count := pick_branching_count s;
     assignment_history := assignment_history s;
     sorted_original_formula_set := sorted_original_formula_set s;
     sorted_new_clause_set := sorted_new_clause_set s;
     eliminate_pure_literal := eliminate_pure_literal s;
     pure_literal_count := pure_literal_count s;
     two_clause_dict := two_clause_dict s;
     vsids_activity := vsids_activity s;
     prev_chosen_literal := prev_chosen_literal s;
     generate_proof := generate_proof s; kappa_conflict_clause := x;
     clauseid_to_parents := clauseid_to_parents s;
     random_restart := random_restart s;
     new_clause_limit := new_clause_limit s;
     random_restart_count := random_restart_count s; rng := rng s |}.

Definition set_clauseid_to_parents (x : gmap nat (list (option Z))) (s : CDCLSolver) : CDCLSolver :=
  {| formula := formula s; num_literals := num_literals s;
     heuristic := heuristic s; assigned_lits := assigned_lits s;
     value := value s; antecedent := antecedent s;
     decision_level := decision_level s;
     pick_branching_count := pick_branching_count s;
     assignment_history := assignment_history s;
     sorted_original_formula_set := sorted_original_formula_set s;
     sorted_new_clause_set := sorted_new_clause_set s;
     eliminate_pure_literal := eliminate_pure_literal s;
     pure_literal_count := pure_literal_count s;
     two_clause_dict := two_clause_dict s;
     vsids_activity := vsids_activity s;
     prev_chosen_literal := prev_chosen_literal s;
     generate_proof := generate_proof s;
     kappa_conflict_clause := kappa_conflict_clause s;
     clauseid_to_parents := x; random_restart := random_restart s;
     new_clause_limit := new_clause_limit s;
     random_restart_count := random_restart_count s; rng := rng s |}.

Definition set_new_clause_limit (x : Q) (s : CDCLSolver) : CDCLSolver :=
  {| formula := formula s; num_literals := num_literals s;
     heuristic := heuristic s; assigned_lits := assigned_lits s;
     value := value s; antecedent := antecedent s;
     decision_level := decision_level s;
     pick_branching_count := pick_branching_count s;
     assignment_history := assignment_history s;
     sorted_original_formula_set := sorted_original_formula_set s;
     sorted_new_clause_set := sorted_new_clause_set s;
     eliminate_pure_literal := eliminate_pure_literal s;
     pure_literal_count := pure_literal_count s;
     two_clause_dict := two_clause_dict s;
     vsids_activity := vsids_activity s;
     prev_chosen_literal := prev_chosen_literal s;
     generate_proof := generate_proof s;
     kappa_conflict_clause := kappa_conflict_clause s;
     clauseid_to_parents := clauseid_to_parents s;
     random_restart := random_restart s; new_clause_limit := x;
     random_restart_count := random_restart_count s; rng := rng s |}.

Definition set_random_restart_count (x : nat) (s : CDCLSolver) : CDCLSolver :=
  {| formula := formula s; num_literals := num_literals s;
     heuristic := heuristic s; assigned_lits := assigned_lits s;
     value := value s; antecedent := antecedent s;
     decision_level := decision_level s;
     pick_branching_count := pick_branching_count s;
     assignment_history := assignment_history s;
     sorted_original_formula_set := sorted_original_formula_set s;
     sorted_new_clause_set := sorted_new_clause_set s;
     eliminate_pure_literal := eliminate_pure_literal s;
     pure_literal_count := pure_literal_count s;
     two_clause_dict := two_clause_dict s;
     vsids_activity := vsids_activity s;
     prev_chosen_literal := prev_chosen_literal s;
     generate_proof := generate_proof s;
     kappa_conflict_clause := kappa_conflict_clause s;
     clauseid_to_parents := clauseid_to_parents s;
     random_restart := random_restart s;
     new_clause_limit := new_clause_limit s; random_restart_count := x;
     rng := rng s |}.

Definition set_rng (x : Random) (s : CDCLSolver) : CDCLSolver :=
  {| formula := formula s; num_literals := num_literals s;
     heuristic := heuristic s; assigned_lits := assigned_lits s;
     value := value s; antecedent := antecedent s;
     decision_level := decision_level s;
     pick_branching_count := pick_branching_count s;
     assignment_history := assignment_history s;
     sorted_original_formula_set := sorted_original_formula_set s;
     sorted_new_clause_set := sorted_new_clause_set s;
     eliminate_pure_literal := eliminate_pure_literal s;
     pure_literal_count := pure_literal_count s;
     two_clause_dict := two_clause_dict s;
     vsids_activity := vsids_activity s;
     prev_chosen_literal := prev_chosen_literal s;
     generate_proof := generate_proof s;
     kappa_conflict_clause := kappa_conflict_clause s;
     clauseid_to_parents := clauseid_to_parents s;
     random_restart := random_restart s;
     new_clause_limit := new_clause_limit s;
     random_restart_count := random_restart_count s; rng := x |}.

(** ** Assigning a literal *)

(** [assign_value]: [int(lit / index)] is the sign of [lit], and the
    division raises when [lit] is 0. *)
Definition assign_value (lit lit_antecedent decision_lvl : Z)
    (s : CDCLSolver) : result CDCLSolver :=
  let index := Z.abs_nat lit in
  if decide (index = 0%nat) then Raise ZeroDivisionError else
  v ← setitem (value s) index (Z.sgn lit);
  a ← setitem (antecedent s) index lit_antecedent;
  d ← setitem (decision_level s) index decision_lvl;
  Ok (set_assigned_lits ({[index]} ∪ assigned_lits s)
        (set_decision_level d (set_antecedent a (set_value v s)))).

(** ** The status of a clause *)

(** What [check_clause_status] returns: the strings ['SAT'], ['UNSAT'],
    ['undetermined'], or the unit literal, an [int]. *)
Inductive status := SAT | UNSAT | Unit (lit : Z) | Undetermined.

#[global] Instance status_eq_dec : EqDecision status.
Proof. solve_decision. Defined.

(** [lit < 0 and value[abs(lit)] == vneg or lit > 0 and value[abs(lit)] == vpos]:
    the array is read only behind the sign test that holds. *)
Definition lit_test (value : list Z) (lit vneg vpos : Z) : result bool :=
  if lit <? 0 then v ← getitem value (Z.abs_nat lit); Ok (v =? vneg)
  else if 0 <? lit then v ← getitem value (Z.abs_nat lit); Ok (v =? vpos)
  else Ok false.

(** The [for] loop of [check_clause_status] and the tests after it;
    [len] is [len(clause)] of the whole clause. *)
Fixpoint check_clause_scan (value : list Z) (len : nat) (rest : list Z)
    (unit_lit : Z) (num_unassigned num_false_lit : nat) : result status :=
  match rest with
  | [] =>
      Ok (if decide (len = num_false_lit) then UNSAT
          else if decide (num_unassigned = 1%nat) then Unit unit_lit
          else Undetermined)
  | lit :: rest' =>
      is_true ← lit_test value lit (-1) 1;
      if is_true : bool then Ok SAT else
      is_false ← lit_test value lit 1 (-1);
      if is_false : bool
      then check_clause_scan value len rest' unit_lit num_unassigned
             (S num_false_lit)
      else
        v ← getitem value (Z.abs_nat lit);
        if v =? 0
        then check_clause_scan value len rest' lit (S num_unassigned)
               num_false_lit
        else check_clause_scan value len rest' unit_lit num_unassigned
               num_false_lit
  end.

Definition check_clause_status (s : CDCLSolver) (clause : list Z)
    : result status :=
  check_clause_scan (value s) (length clause) clause 0 0 0.

(** ** Unit propagation *)

(** The pending units: [unit_clauses], [unit_antecedent], [unit_clause_set]. *)
Record Pending := {
  unit_clauses : list Z;
  unit_antecedents : list nat;
  unit_clause_set : gset Z
}.

Definition pending_push (feedback : Z) (index : nat) (q : Pending) : Pending :=
  {| unit_clauses := unit_clauses q ++ [feedback];
     unit_antecedents := unit_antecedents q ++ [index];
     unit_clause_set := {[feedback]} ∪ unit_clause_set q |}.

(** [find_unit_clauses]: one pass over [enumerate(self.formula)], from
    position [index] on. A feedback other than a new unit is passed over. *)
Fixpoint find_unit_clauses_from (s : CDCLSolver) (clauses : list (list Z))
    (index : nat) (q : Pending) : result Pending :=
  match clauses with
  | [] => Ok q
  | clause :: clauses' =>
      feedback ← check_clause_status s clause;
      match feedback with
      | Unit lit =>
          if decide (lit ∈ unit_clause_set q)
          then find_unit_clauses_from s clauses' (S index) q
          else find_unit_clauses_from s clauses' (S index)
                 (pending_push lit index q)
      | _ => find_unit_clauses_from s clauses' (S index) q
      end
  end.

Definition find_unit_clauses (s : CDCLSolver) : result Pending :=
  find_unit_clauses_from s (formula s) 0
    {| unit_clauses := []; unit_antecedents := []; unit_clause_set := ∅ |}.

(** The pass after an assignment: [inl index] is the [return index] on a
    conflict, [inr q] the pending units at the end of the pass. *)
Fixpoint rescan_from (s : CDCLSolver) (clauses : list (list Z))
    (index : nat) (q : Pending) : result (nat + Pending) :=
  match clauses with
  | [] => Ok (inr q)
  | clause :: clauses' =>
      feedback ← check_clause_status s clause;
      match feedback with
      | SAT | Undetermined => rescan_from s clauses' (S index) q
      | Unit lit =>
          if decide (lit ∈ unit_clause_set q)
          then rescan_from s clauses' (S index) q
          else rescan_from s clauses' (S index) (pending_push lit index q)
      | UNSAT => Ok (inl index)
      end
  end.

(** The [while unit_clauses:] loop. *)
Fixpoint propagate_loop (fuel : nat) (decision_lvl : Z) (q : Pending)
    (s : CDCLSolver) : result (Z * CDCLSolver) :=
  match fuel with
  | O => OutOfFuel
  | S fuel' =>
      match list_pop (unit_clauses q) with
      | None => Ok (-111, s)
      | Some (unit, ucs) =>
          match list_pop (unit_antecedents q) with
          | None => Raise IndexError
          | Some (unit_antecedent, uas) =>
              if decide (unit ∈ unit_clause_set q) then
                let q1 := {| unit_clauses := ucs; unit_antecedents := uas;
                             unit_clause_set := unit_clause_set q ∖ {[unit]} |} in
                s1 ← assign_value unit (Z.of_nat unit_antecedent) decision_lvl s;
                match assignment_history s1 !! decision_lvl with
                | None => Raise KeyError
                | Some seq =>
                    let s2 := set_assignment_history
                                (<[decision_lvl := seq ++ [unit]]>
                                   (assignment_history s1)) s1 in
                    r ← rescan_from s2 (formula s2) 0 q1;
                    match r with
                    | inl index =>
                        Ok (Z.of_nat index,
                            if generate_proof s2
                            then set_kappa_conflict_clause
                                   (Some (Z.of_nat index)) s2
                            else s2)
                    | inr q2 => propagate_loop fuel' decision_lvl q2 s2
                    end
                end
              else Raise KeyError
          end
      end
  end.

Definition unit_propagation (fuel : nat) (decision_lvl : Z) (s : CDCLSolver)
    : result (Z * CDCLSolver) :=
  q ← find_unit_clauses s;
  propagate_loop fuel decision_lvl q s.

(** ** Pure literals *)

(** [for lit in pure_literal_set: self.assign_value(lit, -1, -999)] *)
Fixpoint assign_pure (lits : list Z) (s : CDCLSolver) : result CDCLSolver :=
  match lits with
  | [] => Ok s
  | lit :: lits' => s1 ← assign_value lit (-1) (-999) s; assign_pure lits' s1
  end.

Definition pure_literal_elimination (s : CDCLSolver) : result CDCLSolver :=
  let literal_set := pyset (concat (formula s)) in
  let pure_literal_set :=
    pyset (filter (λ lit, - lit ∉ literal_set) (concat (formula s))) in
  s1 ← assign_pure pure_literal_set s;
  Ok (set_pure_literal_count (length pure_literal_set) s1).

Definition all_variables_assigned (s : CDCLSolver) : bool :=
  bool_decide (size (assigned_lits s) = num_literals s).

(** ** The heuristics' counters *)

Definition activity (s : CDCLSolver) (lit : Z) : Q :=
  default 0%Q (vsids_activity s !! lit).

(** [self.vsids_activity[lit] += 1] *)
Definition vsids_bump (lit : Z) (s : CDCLSolver) : CDCLSolver :=
  set_vsids_activity
    (<[lit := Qred (activity s lit + 1)]> (vsids_activity s)) s.

Definition vsids_multiplicative_boost (lit : Z) (s : CDCLSolver) : CDCLSolver :=
  let '(decay_constant, r) := random_uniform (1 # 1000000) 1 (rng s) in
  let boost_constant := (1 + decay_constant)%Q in
  set_rng r
    (set_vsids_activity
       (<[lit := Qred (activity s lit * boost_constant)]> (vsids_activity s)) s).

(** A [defaultdict(int)] in insertion order: [d[k] += 1]. *)
Fixpoint dict_incr {K} `{EqDecision K} (k : K) (d : list (K * Z))
    : list (K * Z) :=
  match d with
  | [] => [(k, 1)]
  | (k', v) :: d' =>
      if decide (k = k') then (k', v + 1) :: d' else (k', v) :: dict_incr k d'
  end.

(** [d[k] = v] *)
Fixpoint dict_set {K V} `{EqDecision K} (k : K) (v : V) (d : list (K * V))
    : list (K * V) :=
  match d with
  | [] => [(k, v)]
  | (k', v') :: d' =>
      if decide (k = k') then (k', v) :: d' else (k', v') :: dict_set k v d'
  end.

Fixpoint dict_get {K V} `{EqDecision K} (k : K) (d : list (K * V))
    : option V :=
  match d with
  | [] => None
  | (k', v) :: d' => if decide (k = k') then Some v else dict_get k d'
  end.

Definition update_two_clause (two_clause : list Z) (s : CDCLSolver)
    : CDCLSolver :=
  set_two_clause_dict
    (foldl (λ d lit, dict_incr (Z.abs_nat lit) d) (two_clause_dict s)
       two_clause) s.

(** ** Conflict analysis *)

(** [learnt_clause] starts as a [set] and is a [list] after the first
    resolution; [!=] between a list and a set is always true. *)
Inductive pyclause := PySet (l : list Z) | PyList (l : list Z).

Definition items (c : pyclause) : list Z :=
  match c with PySet l | PyList l => l end.

Definition pyclause_neq (a b : pyclause) : bool :=
  match a, b with
  | PySet x, PySet y =>
      negb (bool_decide (frozenset_sorted x = frozenset_sorted y))
  | PyList x, PyList y => negb (bool_decide (x = y))
  | _, _ => true
  end.

(** [resolve(clause_one, clause_two)] *)
Definition resolve (clause_one clause_two : list Z) : list Z :=
  foldl (λ new_clause lit,
           if decide (- lit ∈ new_clause) then set_remove (- lit) new_clause
           else set_add lit new_clause)
        (pyset clause_one) clause_two.

(** The first literal of [seq] that has an antecedent and whose variable
    occurs in [learnt_clause]; [None] when the loop falls through. *)
Fixpoint find_latest_in (s : CDCLSolver) (learnt_clause : list Z)
    (seq : list Z) : result (option Z) :=
  match seq with
  | [] => Ok None
  | lit :: seq' =>
      a ← getitem (antecedent s) (Z.abs_nat lit);
      if negb (a =? -1)
         && (bool_decide (lit ∈ learnt_clause)
             || bool_decide (- lit ∈ learnt_clause))
      then Ok (Some lit)
      else find_latest_in s learnt_clause seq'
  end.

Definition find_latest_assignment (s : CDCLSolver)
    (conflict_decision_lvl : Z) (learnt_clause : list Z)
    : result (option Z) :=
  match assignment_history s !! conflict_decision_lvl with
  | None => Raise KeyError
  | Some seq => find_latest_in s learnt_clause (reverse seq)
  end.

(** The number of literals of [clause] at [conflict_decision_lvl]. *)
Fixpoint count_current_lvl (s : CDCLSolver) (conflict_decision_lvl : Z)
    (clause : list Z) : result nat :=
  match clause with
  | [] => Ok 0%nat
  | lit :: clause' =>
      d ← getitem (decision_level s) (Z.abs_nat lit);
      n ← count_current_lvl s conflict_decision_lvl clause';
      Ok (if d =? conflict_decision_lvl then S n else n)
  end.

(** The [while learnt_clause != prev_learnt_clause:] loop. *)
Fixpoint uip_loop (fuel : nat) (s : CDCLSolver) (conflict_decision_lvl : Z)
    (learnt_clause prev_learnt_clause : pyclause)
    (parents : list (option Z)) : result (pyclause * list (option Z)) :=
  match fuel with
  | O => OutOfFuel
  | S fuel' =>
      if pyclause_neq learnt_clause prev_learnt_clause then
        num_current_lvl_lits ←
          count_current_lvl s conflict_decision_lvl (items learnt_clause);
        latest ←
          find_latest_assignment s conflict_decision_lvl (items learnt_clause);
        match latest with
        | None => Ok (learnt_clause, parents)
        | Some latest_assigned_lit =>
            if latest_assigned_lit =? 0 then Ok (learnt_clause, parents)
            else if bool_decide (num_current_lvl_lits = 1%nat)
                    && negb (conflict_decision_lvl =? 0)
            then Ok (learnt_clause, parents)
            else
              a ← getitem (antecedent s) (Z.abs_nat latest_assigned_lit);
              clause ← getitem_Z (formula s) a;
              uip_loop fuel' s conflict_decision_lvl
                (PyList (resolve (items learnt_clause) clause)) learnt_clause
                (if generate_proof s then parents ++ [Some a] else parents)
        end
      else Ok (learnt_clause, parents)
  end.

Definition find_one_uip_cut (fuel : nat) (s : CDCLSolver)
    (conflict_decision_lvl : Z) (conflict_clause : list Z)
    : result (pyclause * list (option Z)) :=
  uip_loop fuel s conflict_decision_lvl (PySet (pyset conflict_clause))
    (PySet []) [kappa_conflict_clause s].

(** The bumps of the literals of a clause that has just been learnt. *)
Definition bump_all (new_clause : list Z) (s : CDCLSolver) : CDCLSolver :=
  foldl (λ s lit, vsids_multiplicative_boost lit (vsids_bump lit s)) s
    new_clause.

(** The level to backtrack to: the highest level below the conflict's. *)
Fixpoint backtrack_lvl_of (s : CDCLSolver) (conflict_decision_lvl : Z)
    (new_clause : list Z) (backtrack_lvl : Z) : result Z :=
  match new_clause with
  | [] => Ok backtrack_lvl
  | lit :: new_clause' =>
      d ← getitem (decision_level s) (Z.abs_nat lit);
      backtrack_lvl_of s conflict_decision_lvl new_clause'
        (if d <? conflict_decision_lvl then Z.max d backtrack_lvl
         else backtrack_lvl)
  end.

(** The clause that [conflict_analysis] learns, before it is recorded. *)
Definition learnt_clause_of (fuel : nat) (conflict_clause_id
    conflict_decision_lvl : Z) (s : CDCLSolver) : result (list Z) :=
  conflict_clause ← getitem_Z (formula s) conflict_clause_id;
  r ← find_one_uip_cut fuel s conflict_decision_lvl conflict_clause;
  Ok (items r.1).

Definition conflict_analysis (fuel : nat) (conflict_clause_id
    conflict_decision_lvl : Z) (s : CDCLSolver) : result (Z * CDCLSolver) :=
  conflict_clause ← getitem_Z (formula s) conflict_clause_id;
  r ← find_one_uip_cut fuel s conflict_decision_lvl conflict_clause;
  let new_clause := items r.1 in
  let parents := r.2 in
  match new_clause with
  | [] =>
      Ok (-1,
          if generate_proof s
          then set_clauseid_to_parents
                 (<[length (formula s) := parents]> (clauseid_to_parents s))
                 (set_formula (formula s ++ [[0]]) s)
          else s)
  | _ :: _ =>
      let sorted_new_clause := frozenset_sorted new_clause in
      let s1 :=
        if decide (sorted_new_clause ∈
                     sorted_original_formula_set s ∪ sorted_new_clause_set s)
        then s
        else
          let s_a := set_sorted_new_clause_set
                       ({[sorted_new_clause]} ∪ sorted_new_clause_set s)
                       (set_formula (formula s ++ [new_clause]) s) in
          let s_b := if generate_proof s_a
                     then set_clauseid_to_parents
                            (<[(length (formula s_a) - 1)%nat := parents]>
                               (clauseid_to_parents s_a)) s_a
                     else s_a in
          let s_c := if bool_decide (heuristic s_b = twoclause)
                        && bool_decide (length new_clause = 2%nat)
                     then update_two_clause new_clause s_b
                     else s_b in
          bump_all new_clause s_c in
      backtrack_lvl ← backtrack_lvl_of s1 conflict_decision_lvl new_clause 0;
      Ok (backtrack_lvl, s1)
  end.

(** ** Backtracking *)

(** The body of [for lit in range(1, self.num_literals + 1)]. *)
Definition backtrack_var (backtrack_decision_level : Z) (lit : nat)
    (s : CDCLSolver) : result CDCLSolver :=
  d ← getitem (decision_level s) lit;
  if backtrack_decision_level <? d then
    v ← setitem (value s) lit 0;
    d' ← setitem (decision_level s) lit (-1);
    a ← setitem (antecedent s) lit (-1);
    if decide (lit ∈ assigned_lits s)
    then Ok (set_assigned_lits (assigned_lits s ∖ {[lit]})
               (set_antecedent a (set_decision_level d' (set_value v s))))
    else Raise KeyError
  else Ok s.

Fixpoint backtrack_vars (backtrack_decision_level : Z) (lits : list nat)
    (s : CDCLSolver) : result CDCLSolver :=
  match lits with
  | [] => Ok s
  | lit :: lits' =>
      s1 ← backtrack_var backtrack_decision_level lit s;
      backtrack_vars backtrack_decision_level lits' s1
  end.

Definition backtrack (backtrack_decision_level : Z) (s : CDCLSolver)
    : result CDCLSolver :=
  s1 ← backtrack_vars backtrack_decision_level (seq 1 (num_literals s)) s;
  Ok (set_kappa_conflict_clause None
        (set_assignment_history
           (filter (λ kv, kv.1 ≤ backtrack_decision_level)
              (assignment_history s1)) s1)).

(** ** Branching heuristics *)

(** [random.choice([lit, -lit])] *)
Definition choose_sign (lit : Z) (s : CDCLSolver)
    : result (option Z * CDCLSolver) :=
  r ← random_choice [lit; - lit] (rng s);
  Ok (Some r.1, set_rng r.2 s).

(** A selection returns [None] where the Python method falls off its end. *)
Fixpoint ordered_selection_from (lits : list nat) (s : CDCLSolver)
    : result (option Z * CDCLSolver) :=
  match lits with
  | [] => Ok (None, s)
  | lit :: lits' =>
      v ← getitem (value s) lit;
      if v =? 0 then choose_sign (Z.of_nat lit) s
      else ordered_selection_from lits' s
  end.

Definition ordered_selection (s : CDCLSolver)
    : result (option Z * CDCLSolver) :=
  ordered_selection_from (seq 1 (num_literals s)) s.

Fixpoint unassigned_among (value : list Z) (lits : list nat)
    : result (list nat) :=
  match lits with
  | [] => Ok []
  | lit :: lits' =>
      v ← getitem value lit;
      rest ← unassigned_among value lits';
      Ok (if v =? 0 then lit :: rest else rest)
  end.

Definition random_selection (s : CDCLSolver)
    : result (option Z * CDCLSolver) :=
  unassigned_lits ← unassigned_among (value s) (seq 1 (num_literals s));
  r ← random_choice unassigned_lits (rng s);
  choose_sign (Z.of_nat r.1) (set_rng r.2 s).

(** [pre_process_two_clause]: the counts per variable, then the loop over
    [enumerate(two_clause_count)], whose pairs are (position, key). *)
Definition count_two_clauses (formula : list (list Z)) : list (nat * Z) :=
  foldl (λ two_clause_count clause,
           if decide (length clause = 2%nat)
           then foldl (λ d lit, dict_incr (Z.abs_nat lit) d)
                  two_clause_count clause
           else two_clause_count)
        [] formula.

Definition pre_process_two_clause (s : CDCLSolver) : CDCLSolver :=
  let two_clause_count := count_two_clauses (formula s) in
  set_two_clause_dict
    (foldl (λ d p, dict_set (p.1 : nat) (Z.of_nat p.2) d) (two_clause_dict s)
       (imap (λ lit kv, (lit, kv.1)) two_clause_count)) s.

(** [sorted(items, key=lambda item: item[1])], which is stable. *)
Fixpoint insert_by_value {K} (x : K * Z) (l : list (K * Z)) : list (K * Z) :=
  match l with
  | [] => [x]
  | y :: l' => if x.2 <=? y.2 then x :: l else y :: insert_by_value x l'
  end.

Definition sorted_by_value {K} (l : list (K * Z)) : list (K * Z) :=
  foldr insert_by_value [] l.

Fixpoint two_clause_selection_from (lits : list nat) (s : CDCLSolver)
    : result (option Z * CDCLSolver) :=
  match lits with
  | [] => random_selection s
  | lit :: lits' =>
      v ← getitem (value s) lit;
      if v =? 0 then choose_sign (Z.of_nat lit) s
      else two_clause_selection_from lits' s
  end.

Definition two_clause_selection (s : CDCLSolver)
    : result (option Z * CDCLSolver) :=
  let two_clause_list_sorted := (sorted_by_value (two_clause_dict s)).*1 in
  two_clause_selection_from two_clause_list_sorted s.

(** [pre_process_vsids] *)
Definition pre_process_vsids (s : CDCLSolver) : CDCLSolver :=
  foldl (λ s lit, vsids_bump lit s) s (concat (formula s)).

(** A heap of pairs (priority, item) under [heapq]'s contract: [heap[0]]
    is a least pair. The list is kept sorted; [le] orders the pairs. *)
Section heap.
Context {A : Type} (le : Q * A → Q * A → bool).

Fixpoint heappush (x : Q * A) (heap : list (Q * A)) : list (Q * A) :=
  match heap with
  | [] => [x]
  | y :: heap' => if le x y then x :: heap else y :: heappush x heap'
  end.

Definition heapify (l : list (Q * A)) : list (Q * A) :=
  foldr heappush [] l.

Definition heapreplace (x : Q * A) (heap : list (Q * A)) : list (Q * A) :=
  heappush x (tail heap).

End heap.

Definition Qlt_bool (a b : Q) : bool := negb (Qle_bool b a).

(** The order of the tuples [(-activity, lit)]. *)
Definition le_activity_lit (x y : Q * Z) : bool :=
  Qlt_bool x.1 y.1 || (Qeq_bool x.1 y.1 && (x.2 <=? y.2)).

(** The order on the first component of [(-activity_level, clause)]; which
    of two clauses of equal activity comes first is left to the list. *)
Definition le_activity (x y : Q * list Z) : bool := Qle_bool x.1 y.1.

Fixpoint vsids_candidates (s : CDCLSolver) (lits : list nat)
    : result (list (Q * Z)) :=
  match lits with
  | [] => Ok []
  | lit :: lits' =>
      v ← getitem (value s) lit;
      rest ← vsids_candidates s lits';
      Ok (if v =? 0
          then ((- activity s (Z.of_nat lit))%Q, Z.of_nat lit)
               :: ((- activity s (- Z.of_nat lit))%Q, - Z.of_nat lit) :: rest
          else rest)
  end.

Definition vsids_selection (s : CDCLSolver)
    : result (option Z * CDCLSolver) :=
  max_heap ← vsids_candidates s (seq 1 (num_literals s));
  match filter (λ choice, prev_chosen_literal s ≠ choice)
          (heapify le_activity_lit max_heap).*2 with
  | choice :: _ => Ok (Some choice, s)
  | [] => random_selection s
  end.

(** [self.selection()] *)
Definition selection (s : CDCLSolver) : result (option Z * CDCLSolver) :=
  match heuristic s with
  | random => random_selection s
  | order => ordered_selection s
  | twoclause => two_clause_selection s
  | vsids => vsids_selection s
  end.

(** ** Restart and forget *)

(** The mean of the activities of the literals of a clause. *)
Definition mean_activity (s : CDCLSolver) (clause : list Z) : Q :=
  Qred (foldl (λ acc lit, acc + activity s lit)%Q 0%Q clause
        / inject_Z (Z.of_nat (length clause))).

(** [sum([self.vsids_activity[lit] for lit in clause]) / len(clause)] *)
Definition clause_activity (s : CDCLSolver) (clause : list Z) : result Q :=
  if decide (length clause = 0%nat) then Raise ZeroDivisionError
  else Ok (mean_activity s clause).

Fixpoint score_clauses (s : CDCLSolver) (clauses : list (list Z))
    (new_clause_activity : list (list Z * Q)) : result (list (list Z * Q)) :=
  match clauses with
  | [] => Ok new_clause_activity
  | clause :: clauses' =>
      a ← clause_activity s clause;
      score_clauses s clauses'
        (dict_set (frozenset_sorted clause) a new_clause_activity)
  end.

(** The loop that fills [max_heap] with the least active clauses. *)
Fixpoint fill_heap (num_new_clause_to_keep : nat)
    (scored : list (list Z * Q)) (max_heap : list (Q * list Z))
    : result (list (Q * list Z)) :=
  match scored with
  | [] => Ok max_heap
  | (clause, activity_level) :: scored' =>
      if decide (length max_heap < num_new_clause_to_keep)%nat
      then fill_heap num_new_clause_to_keep scored'
             (heappush le_activity ((- activity_level)%Q, clause) max_heap)
      else
        max_item ← getitem max_heap 0;
        if Qlt_bool activity_level (- max_item.1)
        then fill_heap num_new_clause_to_keep scored'
               (heapreplace le_activity ((- activity_level)%Q, clause)
                  max_heap)
        else fill_heap num_new_clause_to_keep scored' max_heap
  end.

Definition restart_and_forget (s : CDCLSolver) : result CDCLSolver :=
  let s1 := set_new_clause_limit (Qred (new_clause_limit s * (3 # 2))) s in
  let num_new_clause := size (sorted_new_clause_set s1) in
  let num_new_clause_to_keep := (num_new_clause / 2)%nat in
  let start_index_new_clause := size (sorted_original_formula_set s1) in
  new_clause_activity ←
    score_clauses s1 (drop start_index_new_clause (formula s1)) [];
  max_heap ← fill_heap num_new_clause_to_keep new_clause_activity [];
  let to_be_removed_clauses : gset (list Z) :=
    list_to_set (frozenset_sorted <$> max_heap.*2) in
  let new_formula :=
    filter (λ clause, frozenset_sorted clause ∉ to_be_removed_clauses)
      (formula s1) in
  let new_set := sorted_new_clause_set s1 ∖ to_be_removed_clauses in
  backtrack 0 (set_sorted_new_clause_set new_set (set_formula new_formula s1)).

(** ** The main loop *)

(** The head of a turn: [if self.random_restart:] and what is under it. *)
Definition restart_check (current_dec_lvl : Z) (s : CDCLSolver)
    : result (Z * CDCLSolver) :=
  if random_restart s
     && Qlt_bool (new_clause_limit s)
          (inject_Z (Z.of_nat (size (sorted_new_clause_set s))))
  then s' ← restart_and_forget s;
       Ok (0, set_random_restart_count (S (random_restart_count s')) s')
  else Ok (current_dec_lvl, s).

(** One turn of [while not self.all_variables_assigned():]; [inl b] is
    [return b] (or the [break], which returns [True]). *)
Definition cdcl_step (fuel : nat) (current_dec_lvl : Z) (s : CDCLSolver)
    : result (bool * CDCLSolver + Z * CDCLSolver) :=
  r0 ← restart_check current_dec_lvl s;
  let current_dec_lvl := r0.1 in
  r1 ← unit_propagation fuel current_dec_lvl r0.2;
  let conflict_clause_id := r1.1 in
  if 0 <=? conflict_clause_id then
    r2 ← conflict_analysis fuel conflict_clause_id current_dec_lvl r1.2;
    let backtrack_decision_level := r2.1 in
    if backtrack_decision_level <? 0 then Ok (inl (false, r2.2))
    else
      s3 ← backtrack backtrack_decision_level r2.2;
      Ok (inr (backtrack_decision_level, s3))
  else if all_variables_assigned r1.2 then Ok (inl (true, r1.2))
  else
    let current_dec_lvl := current_dec_lvl + 1 in
    r3 ← selection r1.2;
    match r3.1 with
    | None => Raise TypeError
    | Some picked_variable =>
        let s4 := set_assignment_history
                    (<[current_dec_lvl := [picked_variable]]>
                       (assignment_history r3.2))
                    (set_pick_branching_count (S (pick_branching_count r3.2))
                       (set_prev_chosen_literal picked_variable r3.2)) in
        s5 ← assign_value picked_variable (-1) current_dec_lvl s4;
        Ok (inr (current_dec_lvl,
                 vsids_multiplicative_boost picked_variable
                   (vsids_bump picked_variable s5)))
    end.

(** The [while] loop: [fuel] bounds its turns, [inner] is the fuel of the
    loops inside a turn. *)
Fixpoint cdcl_loop (fuel inner : nat) (current_dec_lvl : Z) (s : CDCLSolver)
    : result (bool * CDCLSolver) :=
  match fuel with
  | O => OutOfFuel
  | S fuel' =>
      if all_variables_assigned s then Ok (true, s)
      else
        r ← cdcl_step inner current_dec_lvl s;
        match r with
        | inl verdict => Ok verdict
        | inr (lvl, s') => cdcl_loop fuel' inner lvl s'
        end
  end.

(** The level and the solver at the head of the loop after [n] full
    turns, when the loop has not returned before. *)
Fixpoint cdcl_turns (n inner : nat) (current_dec_lvl : Z) (s : CDCLSolver)
    : result (option (Z * CDCLSolver)) :=
  match n with
  | O => Ok (Some (current_dec_lvl, s))
  | S n' =>
      if all_variables_assigned s then Ok None
      else
        r ← cdcl_step inner current_dec_lvl s;
        match r with
        | inl _ => Ok None
        | inr (lvl, s') => cdcl_turns n' inner lvl s'
        end
  end.

(** What [cdcl] does before its loop. *)
Definition cdcl_start (s : CDCLSolver) : result CDCLSolver :=
  let current_dec_lvl := 0 in
  let s0 := set_assignment_history
              (<[current_dec_lvl := []]> (assignment_history s)) s in
  if eliminate_pure_literal s0 then pure_literal_elimination s0 else Ok s0.

Definition cdcl (fuel inner : nat) (s : CDCLSolver)
    : result (bool * CDCLSolver) :=
  s1 ← cdcl_start s;
  cdcl_loop fuel inner 0 s1.

(** The head of the loop of [cdcl] after [n] turns. *)
Definition cdcl_at (n inner : nat) (s : CDCLSolver)
    : result (option (Z * CDCLSolver)) :=
  s1 ← cdcl_start s;
  cdcl_turns n inner 0 s1.

(** ** [solve], without its input and output *)

Definition pre_processing (s : CDCLSolver) : CDCLSolver :=
  let s1 := set_sorted_original_formula_set
              (list_to_set (frozenset_sorted <$> formula s)
                 ∪ sorted_original_formula_set s) s in
  match heuristic s1 with
  | twoclause => pre_process_two_clause s1
  | vsids => pre_process_vsids s1
  | _ => s1
  end.

(** [[(lit * value) for lit, value in enumerate(self.value)][1:]] *)
Definition solution (s : CDCLSolver) : list Z :=
  drop 1 (imap (λ lit v, Z.of_nat lit * v) (value s)).

(** The verdict of [solve] and the solver after it. *)
Definition solve (fuel inner : nat) (s : CDCLSolver)
    : result (bool * CDCLSolver) :=
  cdcl fuel inner (pre_processing s).

(** ** What the statements compare the code with *)

(** The number of clauses of two literals that hold the variable [v] or
    its negation. *)
Definition binary_clauses_with (formula : list (list Z)) (v : nat) : nat :=
  length (filter (λ clause, length clause = 2%nat
                            ∧ (Z.of_nat v ∈ clause ∨ - Z.of_nat v ∈ clause))
            formula).

(** The count that [two_clause_dict], a [defaultdict(int)], holds for [v]. *)
Definition two_clause_dict_at (s : CDCLSolver) (v : nat) : Z :=
  default 0 (dict_get v (two_clause_dict s)).

(** The value of a literal under a total assignment of the variables. *)
Definition holds (a : nat → bool) (lit : Z) : bool :=
  if 0 <? lit then a (Z.abs_nat lit) else negb (a (Z.abs_nat lit)).

(** ** The solvers of the examples *)

(** Draws for the examples: every [random.choice] takes the first element,
    every [random.uniform] gives 1/2. *)
Definition tape : Random :=
  {| choices := []; uniforms := replicate 16 (1 # 2)%Q |}.

(** An unsatisfiable formula over four variables. *)
Definition six_clauses : list (list Z) :=
  [[-1; 2]; [-1; -2]; [1; 3; 4]; [1; 3; -4]; [1; -3; 4]; [1; -3; -4]].

(** The solver on [six_clauses], restarts enabled, after the
    pre-processing of [solve]. *)
Definition solver_six : CDCLSolver :=
  pre_processing (init six_clauses 4 order false false true tape).

(** The same with a clause over two more variables. *)
Definition seven_clauses : list (list Z) := six_clauses ++ [[-5; 6]].

Definition solver_seven : CDCLSolver :=
  pre_processing (init seven_clauses 6 order false false true tape).

(** Each of the four clauses over two variables, restarts enabled. *)
Definition four_clauses : list (list Z) := [[1; 2]; [1; -2]; [-1; 2]; [-1; -2]].

Definition solver_four : CDCLSolver :=
  pre_processing (init four_clauses 2 order false false true tape).

(** The formula of the empty clause alone. *)
Definition solver_empty_clause : CDCLSolver :=
  pre_processing (init [[]] 1 order false false false tape).

(** Two solvers with the two-clause heuristic. *)
Definition solver_two_clause : CDCLSolver :=
  pre_processing (init [[1; 2]; [2; 3]] 3 twoclause false false false tape).

Definition solver_two_clause' : CDCLSolver :=
  pre_processing (init [[2; 1]; [3; 4]] 4 twoclause false false false tape).

(** A solver in the middle of a search: variable 1 is true at level 0 by
    clause 0, variable 2 was decided false at level 1, variable 3 is a
    pure literal. *)
Definition solver_mid : CDCLSolver :=
  set_assignment_history (<[1 := [-2]]> (<[0 := [1]]> ∅))
    (set_assigned_lits {[1%nat; 2%nat; 3%nat]}
       (set_decision_level [-1; 0; 1; -999]
          (set_antecedent [-1; 0; -1; -1]
             (set_value [0; 1; -1; 1]
                (init [[1]; [2; 3]] 3 order false false false tape))))).

(** The solver on [six_clauses] at the head of the sixth turn of [cdcl]:
    level 0, the learnt clauses [-1] and [1; -3], the limit 1. *)
Definition solver_six_turn5 : CDCLSolver :=
  Eval vm_compute in
    match cdcl_at 5 50 solver_six with
    | Ok (Some (_, s)) => s
    | _ => solver_six
    end.

(** The same run with restarts disabled. *)
Definition solver_six_no_restart : CDCLSolver :=
  pre_processing (init six_clauses 4 order false false false tape).

(** The six clauses with the last one written a second time, in another
    order, and a second draw of 9/10. *)
Definition solver_repeated : CDCLSolver :=
  pre_processing
    (init (six_clauses ++ [[-4; -3; 1]]) 4 order false false true
       {| choices := [];
          uniforms := [(1 # 2); (9 # 10)] ++ replicate 14 (1 # 2) |}%Q).

(** The solver on [six_clauses], restarts disabled, when
    [unit_propagation] has reported the conflict of the sixth turn. *)
Definition solver_six_conflict : CDCLSolver :=
  Eval vm_compute in
    match cdcl_at 5 50 solver_six_no_restart with
    | Ok (Some (lvl, s)) =>
        match unit_propagation 50 lvl s with
        | Ok (_, s') => s'
        | _ => s
        end
    | _ => solver_six_no_restart
    end.

(** The solver on [four_clauses] when [unit_propagation] has reported the
    conflict of the second turn, at level 1. *)
Definition solver_four_conflict : CDCLSolver :=
  Eval vm_compute in
    match cdcl_at 1 50 solver_four with
    | Ok (Some (lvl, s)) =>
        match unit_propagation 50 lvl s with
        | Ok (_, s') => s'
        | _ => s
        end
    | _ => solver_four
    end.

(** ** The reading of the arrays that the statements use *)

(** A literal under the array [value]: true, false or unassigned. *)
Definition lit_true (value : list Z) (lit : Z) : Prop :=
  (lit < 0 ∧ value !! Z.abs_nat lit = Some (-1))
  ∨ (0 < lit ∧ value !! Z.abs_nat lit = Some 1).

Definition lit_false (value : list Z) (lit : Z) : Prop :=
  (lit < 0 ∧ value !! Z.abs_nat lit = Some 1)
  ∨ (0 < lit ∧ value !! Z.abs_nat lit = Some (-1)).

Definition lit_unassigned (value : list Z) (lit : Z) : Prop :=
  value !! Z.abs_nat lit = Some 0.

#[global] Instance lit_true_dec value lit : Decision (lit_true value lit).
Proof. unfold lit_true. apply _. Defined.

#[global] Instance lit_false_dec value lit : Decision (lit_false value lit).
Proof. unfold lit_false. apply _. Defined.

#[global] Instance lit_unassigned_dec value lit
  : Decision (lit_unassigned value lit).
Proof. unfold lit_unassigned. apply _. Defined.

(** A literal the array can be asked about: it is not 0, its variable is
    an index of the array, and the entry is one of -1, 0, 1. *)
Definition lit_ok (value : list Z) (lit : Z) : Prop :=
  lit ≠ 0 ∧ ∃ v, value !! Z.abs_nat lit = Some v ∧ (v = -1 ∨ v = 0 ∨ v = 1).

(** The record of the variable at index [v]: its value, its decision
    level, its antecedent, and whether it is in [assigned_lits]. *)
Definition var_record (s : CDCLSolver) (v : nat)
    : option Z * option Z * option Z * bool :=
  (value s !! v, decision_level s !! v, antecedent s !! v,
   bool_decide (v ∈ assigned_lits s)).

(** The record of an unassigned variable. *)
Definition unassigned_record : option Z * option Z * option Z * bool :=
  (Some 0, Some (-1), Some (-1), false).

(** The variable at index [v] has a decision level above [lvl]. *)
Definition above (lvl : Z) (s : CDCLSolver) (v : nat) : bool :=
  match decision_level s !! v with
  | Some d => bool_decide (lvl < d)
  | None => false
  end.

(** The three arrays have an entry for 0 and for each variable. *)
Definition arrays_sized (s : CDCLSolver) : Prop :=
  length (value s) = S (num_literals s)
  ∧ length (decision_level s) = S (num_literals s)
  ∧ length (antecedent s) = S (num_literals s).

(** A variable with a decision level from 0 on is in [assigned_lits]. *)
Definition levelled_assigned (s : CDCLSolver) : Prop :=
  ∀ (v : nat) (d : Z), (1 ≤ v ≤ num_literals s)%nat →
    decision_level s !! v = Some d → 0 ≤ d → v ∈ assigned_lits s.

(** What the loop of [backtrack] leaves alone. *)
Record same_frame (s' s : CDCLSolver) : Prop := {
  frame_history : assignment_history s' = assignment_history s;
  frame_formula : formula s' = formula s;
  frame_num_literals : num_literals s' = num_literals s;
  frame_value : length (value s') = length (value s);
  frame_decision_level :
    length (decision_level s') = length (decision_level s);
  frame_antecedent : length (antecedent s') = length (antecedent s);
  frame_new_clause_set : sorted_new_clause_set s' = sorted_new_clause_set s;
  frame_new_clause_limit : new_clause_limit s' = new_clause_limit s;
  frame_vsids_activity : vsids_activity s' = vsids_activity s
}.

(** The last unassigned literal of [rest], or [d] when there is none: the
    final content of the variable [unit_lit]. *)
Definition last_unassigned (value : list Z) (rest : list Z) (d : Z) : Z :=
  default d (last (filter (lit_unassigned value) rest)).

(** A closed decidable statement, settled by evaluating its decision. *)
Ltac by_compute :=
  match goal with
  | |- ?P => refine (bool_decide_unpack P _); vm_compute; exact I
  end.

(** No clause of the formula is falsified. *)
Definition conflict_free (s : CDCLSolver) : Prop :=
  ∀ clause, clause ∈ formula s → check_clause_status s clause ≠ Ok UNSAT.

(** The order of the heap entries [(-activity_level, clause)]. *)
Definition entry_le (x y : Q * list Z) : Prop := (x.1 <= y.1)%Q.

(** The entry of a clause in [new_clause_activity]. *)
Definition scored_entry (s : CDCLSolver) (clause : list Z) : list Z * Q :=
  (frozenset_sorted clause, mean_activity s clause).

(** The clause database: the original clauses, then the learnt ones, no
    two of them the same set of literals, none of them empty, and the two
    sets of canonical clauses as [solve] and [conflict_analysis] keep
    them. *)
Definition learnt_database (s : CDCLSolver) (originals learned : list (list Z))
    : Prop :=
  formula s = originals ++ learned
  ∧ size (sorted_original_formula_set s) = length originals
  ∧ sorted_new_clause_set s = list_to_set (frozenset_sorted <$> learned)
  ∧ NoDup (frozenset_sorted <$> learned)
  ∧ Forall (λ clause, clause ≠ []) learned
  ∧ ∀ c, c ∈ originals → frozenset_sorted c ∉ frozenset_sorted <$> learned.

(** The heap entry of a clause. *)
Definition heap_entry (s : CDCLSolver) (clause : list Z) : Q * list Z :=
  ((- mean_activity s clause)%Q, frozenset_sorted clause).

(** ** The implication graph that the statements use *)

(** The decision level of the variable of a literal. *)
Definition level_of (s : CDCLSolver) (lit : Z) : option Z :=
  decision_level s !! Z.abs_nat lit.

(** Every literal of the clause is false and its variable has a level. *)
Definition falsified (s : CDCLSolver) (clause : list Z) : Prop :=
  Forall (λ lit, lit_false (value s) lit ∧ is_Some (level_of s lit)) clause.

(** The literals of a clause at the level [lvl]. *)
Definition at_level (s : CDCLSolver) (lvl : Z) (clause : list Z) : list Z :=
  filter (λ lit, level_of s lit = Some lvl) clause.

(** The test of [find_latest_assignment] on a literal of the history. *)
Definition propagated_in (s : CDCLSolver) (learnt_clause : list Z) (lit : Z)
    : Prop :=
  (∃ a, antecedent s !! Z.abs_nat lit = Some a ∧ a ≠ -1)
  ∧ (lit ∈ learnt_clause ∨ - lit ∈ learnt_clause).

#[global] Instance propagated_in_dec s l lit : Decision (propagated_in s l lit).
Proof.
  unfold propagated_in.
  destruct (antecedent s !! Z.abs_nat lit) as [a|].
  - destruct (decide (a ≠ -1)).
    + destruct (decide (lit ∈ l ∨ - lit ∈ l)); [left|right]; naive_solver.
    + right. intros [(a' & [= <-] & ?) _]. done.
  - right. intros [(a' & ? & _) _]. done.
Defined.

(** The clause at [a] implies [p]: it is a clause of the formula that
    holds [p], its other literals are false, and those of the level [lvl]
    have their variable among the literals [earlier] of the history. *)
Definition implied_by (s : CDCLSolver) (lvl : Z) (earlier : list Z) (p a : Z)
    : Prop :=
  0 ≤ a ∧ ∃ pre post,
    formula s !! Z.to_nat a = Some (pre ++ p :: post)
    ∧ falsified s (pre ++ post)
    ∧ ∀ q, q ∈ pre ++ post → level_of s q = Some lvl →
           Z.abs_nat q ∈ Z.abs_nat <$> earlier.

(** The history [seq] of the level [lvl] and the arrays agree: its
    literals are true, of that level and of distinct variables, every
    variable of that level is in it, a literal with an antecedent is
    implied by it from earlier literals, and a literal without one, the
    decision, is the first. *)
Record trail_ok (s : CDCLSolver) (lvl : Z) (seq : list Z) : Prop := {
  trail_history : assignment_history s !! lvl = Some seq;
  trail_true : ∀ p, p ∈ seq → lit_true (value s) p;
  trail_level : ∀ p, p ∈ seq → level_of s p = Some lvl;
  trail_nodup : NoDup (Z.abs_nat <$> seq);
  trail_complete :
    ∀ v, decision_level s !! v = Some lvl → v ∈ Z.abs_nat <$> seq;
  trail_antecedent :
    ∀ i p, seq !! i = Some p →
      ∃ a, antecedent s !! Z.abs_nat p = Some a
           ∧ (a ≠ -1 → implied_by s lvl (take i seq) p a);
  trail_decision :
    ∀ i p, seq !! i = Some p → antecedent s !! Z.abs_nat p = Some (-1) →
           i = 0%nat
}.

(** * Theorems *)

(** ** The status of a clause *)

Lemma lit_ok_cases value lit :
  lit_ok value lit →
  lit_true value lit ∨ lit_false value lit ∨ lit_unassigned value lit.
Proof.
  intros [Hne (v & Hv & Hr)]. unfold lit_true, lit_false, lit_unassigned.
  rewrite Hv.
  destruct (Z.lt_total lit 0) as [Hs|[Hs|Hs]]; [|lia|];
    destruct Hr as [->|[->| ->]]; auto.
Qed.

Lemma lit_true_not_false value lit : lit_true value lit → ¬ lit_false value lit.
Proof.
  unfold lit_true, lit_false.
  intros [[? H1]|[? H1]] [[? H2]|[? H2]]; try lia; congruence.
Qed.

Lemma lit_true_not_unassigned value lit :
  lit_true value lit → ¬ lit_unassigned value lit.
Proof.
  unfold lit_true, lit_unassigned. intros [[? H1]|[? H1]] H2; congruence.
Qed.

Lemma lit_false_not_unassigned value lit :
  lit_false value lit → ¬ lit_unassigned value lit.
Proof.
  unfold lit_false, lit_unassigned. intros [[? H1]|[? H1]] H2; congruence.
Qed.

Lemma lit_test_true value lit :
  lit_ok value lit →
  lit_test value lit (-1) 1 = Ok (bool_decide (lit_true value lit)).
Proof.
  intros [Hne (v & Hv & Hr)]. unfold lit_test, getitem.
  rewrite Hv. simpl.
  destruct (Z.ltb_spec lit 0) as [Hs|Hs]; simpl.
  - f_equal. destruct (Z.eqb_spec v (-1)) as [->|Hn].
    + symmetry. apply bool_decide_eq_true. left. auto.
    + symmetry. apply bool_decide_eq_false.
      intros [[_ H]|[H _]]; [congruence|lia].
  - destruct (Z.ltb_spec 0 lit) as [Hp|Hp]; [|lia]. simpl. f_equal.
    destruct (Z.eqb_spec v 1) as [->|Hn].
    + symmetry. apply bool_decide_eq_true. right. auto.
    + symmetry. apply bool_decide_eq_false.
      intros [[H _]|[_ H]]; [lia|congruence].
Qed.

Lemma lit_test_false value lit :
  lit_ok value lit →
  lit_test value lit 1 (-1) = Ok (bool_decide (lit_false value lit)).
Proof.
  intros [Hne (v & Hv & Hr)]. unfold lit_test, getitem.
  rewrite Hv. simpl.
  destruct (Z.ltb_spec lit 0) as [Hs|Hs]; simpl.
  - f_equal. destruct (Z.eqb_spec v 1) as [->|Hn].
    + symmetry. apply bool_decide_eq_true. left. auto.
    + symmetry. apply bool_decide_eq_false.
      intros [[_ H]|[H _]]; [congruence|lia].
  - destruct (Z.ltb_spec 0 lit) as [Hp|Hp]; [|lia]. simpl. f_equal.
    destruct (Z.eqb_spec v (-1)) as [->|Hn].
    + symmetry. apply bool_decide_eq_true. right. auto.
    + symmetry. apply bool_decide_eq_false.
      intros [[H _]|[_ H]]; [lia|congruence].
Qed.

(** The scan, told by what it has counted so far and what is left. *)
Lemma check_clause_scan_spec value len rest unit_lit nu nf :
  Forall (lit_ok value) rest →
  check_clause_scan value len rest unit_lit nu nf =
  Ok (if decide (Exists (lit_true value) rest) then SAT
      else if decide (len = nf + length (filter (lit_false value) rest))%nat
      then UNSAT
      else if decide (nu + length (filter (lit_unassigned value) rest) = 1)%nat
      then Unit (last_unassigned value rest unit_lit)
      else Undetermined).
Proof.
  intros Hok. revert unit_lit nu nf.
  induction Hok as [|lit rest Hlit Hrest IH]; intros unit_lit nu nf.
  - simpl. destruct (decide (Exists (lit_true value) [])) as [H|_];
      [by apply Exists_nil in H|].
    rewrite !Nat.add_0_r. reflexivity.
  - cbn [check_clause_scan]. rewrite lit_test_true by done. simpl.
    destruct (decide (lit_true value lit)) as [Ht|Ht].
    + rewrite bool_decide_eq_true_2 by done.
      destruct (decide (Exists (lit_true value) (lit :: rest))) as [_|H];
        [reflexivity|]. destruct H. by left.
    + rewrite bool_decide_eq_false_2 by done.
      rewrite lit_test_false by done. simpl.
      assert (Exists (lit_true value) (lit :: rest)
              ↔ Exists (lit_true value) rest) as Hex
        by (rewrite Exists_cons; tauto).
      destruct (decide (lit_false value lit)) as [Hf|Hf].
      * rewrite bool_decide_eq_true_2 by done. rewrite IH.
        unfold last_unassigned.
        rewrite (filter_cons_True (lit_false value)) by done.
        rewrite (filter_cons_False (lit_unassigned value))
          by (by apply lit_false_not_unassigned).
        simpl. rewrite Nat.add_succ_r.
        destruct (decide (Exists (lit_true value) rest)) as [He|He];
          destruct (decide (Exists (lit_true value) (lit :: rest)))
            as [He'|He']; try tauto; reflexivity.
      * rewrite bool_decide_eq_false_2 by done.
        assert (lit_unassigned value lit) as Hu
          by (destruct (lit_ok_cases _ _ Hlit) as [?|[?|?]]; tauto).
        unfold getitem. rewrite Hu. simpl. rewrite IH.
        assert (last_unassigned value rest lit
                = last_unassigned value (lit :: rest) unit_lit) as ->.
        { unfold last_unassigned.
          rewrite (filter_cons_True (lit_unassigned value)) by done.
          destruct (filter (lit_unassigned value) rest) as [|y l] eqn:E;
            [done|].
          rewrite (last_cons lit). by destruct (last (y :: l)) eqn:E2. }
        rewrite (filter_cons_False (lit_false value)) by done.
        rewrite (filter_cons_True (lit_unassigned value)) by done.
        simpl. rewrite Nat.add_succ_r.
        destruct (decide (Exists (lit_true value) rest)) as [He|He];
          destruct (decide (Exists (lit_true value) (lit :: rest)))
            as [He'|He']; try tauto; reflexivity.
Qed.

Lemma filter_length_all {A} (P : A → Prop) `{∀ x, Decision (P x)} (l : list A) :
  length (filter P l) = length l ↔ Forall P l.
Proof.
  induction l as [|x l IH]; [by split|].
  destruct (decide (P x)) as [Hx|Hx].
  - rewrite filter_cons_True by done. simpl. rewrite Forall_cons.
    split; [intros E|intros [_ E]].
    + split; [done|]. apply IH. lia.
    + f_equal. by apply IH.
  - rewrite filter_cons_False by done. simpl. rewrite Forall_cons.
    pose proof (length_filter P l). split; [lia|tauto].
Qed.

Lemma filter_length_one {A} (P : A → Prop) `{∀ x, Decision (P x)} (l : list A) :
  length (filter P l) = 1%nat →
  ∃ pre x post, l = pre ++ x :: post ∧ P x
    ∧ Forall (λ y, ¬ P y) (pre ++ post) ∧ last (filter P l) = Some x.
Proof.
  induction l as [|y l IH]; [discriminate|].
  destruct (decide (P y)) as [Hy|Hy].
  - rewrite filter_cons_True by done. simpl. intros E.
    assert (filter P l = []) as E0 by (apply nil_length_inv; lia).
    exists [], y, l. rewrite E0. repeat split; try done.
    simpl. apply Forall_forall. intros z Hz Pz.
    assert (z ∈ filter P l) as Hin by (by apply list_elem_of_filter).
    rewrite E0 in Hin. by apply not_elem_of_nil in Hin.
  - rewrite filter_cons_False by done. intros E.
    destruct (IH E) as (pre & x & post & -> & Px & Hall & Hlast).
    exists (y :: pre), x, post. repeat split; try done.
    simpl. by constructor.
Qed.

Lemma length_false_unassigned value clause :
  Forall (lit_ok value) clause →
  ¬ Exists (lit_true value) clause →
  length clause = (length (filter (lit_false value) clause)
                   + length (filter (lit_unassigned value) clause))%nat.
Proof.
  induction 1 as [|lit rest Hlit Hrest IH]; [done|].
  rewrite Exists_cons. intros Hno.
  destruct (lit_ok_cases _ _ Hlit) as [Ht|[Hf|Hu]]; [tauto| |].
  - rewrite (filter_cons_True (lit_false value)) by done.
    rewrite (filter_cons_False (lit_unassigned value))
      by (by apply lit_false_not_unassigned).
    simpl. rewrite IH by tauto. reflexivity.
  - rewrite (filter_cons_False (lit_false value))
      by (intros Hf; by apply lit_false_not_unassigned in Hf).
    rewrite (filter_cons_True (lit_unassigned value)) by done.
    simpl. rewrite IH by tauto. lia.
Qed.

Lemma all_false_no_true value clause :
  Forall (lit_false value) clause → ¬ Exists (lit_true value) clause.
Proof.
  intros Hall Hex. apply Exists_exists in Hex as (lit & Hin & Ht).
  rewrite Forall_forall in Hall.
  by apply (lit_true_not_false _ _ Ht), Hall.
Qed.

Lemma filter_unassigned_one value pre l post :
  lit_unassigned value l →
  Forall (lit_false value) (pre ++ post) →
  filter (lit_unassigned value) (pre ++ l :: post) = [l].
Proof.
  intros Hl Hall.
  assert (∀ k, Forall (lit_false value) k →
               filter (lit_unassigned value) k = []) as Hnil.
  { induction 1 as [|y k Hy _ IH]; [done|].
    rewrite filter_cons_False by (by apply lit_false_not_unassigned).
    exact IH. }
  apply Forall_app in Hall as [H1 H2].
  rewrite filter_app, filter_cons_True by done.
  by rewrite (Hnil _ H1), (Hnil _ H2).
Qed.

(** C5. [check_clause_status] answers SAT when some literal of the clause
    is true, whatever else the clause holds; it answers UNSAT exactly when
    every literal is false; and it answers the literal [l] exactly when
    [l] is the one unassigned literal of the clause and all the other
    literals are false. *)
Theorem check_clause_status_spec (s : CDCLSolver) (clause : list Z) :
  Forall (lit_ok (value s)) clause →
  ∃ st, check_clause_status s clause = Ok st
    ∧ (st = SAT ↔ Exists (lit_true (value s)) clause)
    ∧ (st = UNSAT ↔ Forall (lit_false (value s)) clause)
    ∧ (∀ l, st = Unit l ↔
         ∃ pre post, clause = pre ++ l :: post
           ∧ lit_unassigned (value s) l
           ∧ Forall (lit_false (value s)) (pre ++ post)).
Proof.
  intros Hok. unfold check_clause_status.
  rewrite check_clause_scan_spec by done. simpl.
  eexists. split; [reflexivity|].
  destruct (decide (Exists (lit_true (value s)) clause)) as [Hex|Hno].
  { split; [tauto|]. split.
    - split; [discriminate|]. intros Hall.
      by apply all_false_no_true in Hall.
    - intros l. split; [discriminate|].
      intros (pre & post & -> & Hu & Hall). exfalso.
      apply Exists_exists in Hex as (lit & Hin & Ht).
      rewrite Forall_forall in Hall.
      apply elem_of_app in Hin as [Hin|Hin];
        [|apply elem_of_cons in Hin as [->|Hin]].
      + apply (lit_true_not_false _ _ Ht), Hall. set_solver.
      + by apply (lit_true_not_unassigned _ _ Ht).
      + apply (lit_true_not_false _ _ Ht), Hall. set_solver. }
  pose proof (length_false_unassigned _ _ Hok Hno) as Hlen.
  destruct (decide (length clause
                    = length (filter (lit_false (value s)) clause)))
    as [Hf|Hf].
  { assert (Forall (lit_false (value s)) clause) as Hall
      by (by apply (filter_length_all (lit_false (value s)) clause)).
    split; [split; [discriminate|tauto]|]. split; [tauto|].
    intros l. split; [discriminate|].
    intros (pre & post & -> & Hu & _). exfalso.
    rewrite Forall_forall in Hall.
    apply (lit_false_not_unassigned (value s) l); [|done].
    apply Hall. set_solver. }
  assert (¬ Forall (lit_false (value s)) clause) as Hnall.
  { intros Hall. apply Hf. symmetry.
    by apply (filter_length_all (lit_false (value s)) clause). }
  destruct (decide (length (filter (lit_unassigned (value s)) clause)
                    = 1%nat)) as [Hu|Hu].
  - destruct (filter_length_one _ _ Hu)
      as (pre & x & post & Hcl & Hx & Hrest & Hlast).
    unfold last_unassigned. rewrite Hlast. simpl.
    assert (Forall (lit_false (value s)) (pre ++ post)) as Hfalse.
    { rewrite Forall_forall in Hrest |- *. intros y Hy.
      assert (y ∈ clause) as Hin.
      { rewrite Hcl. apply elem_of_app in Hy as [?|?]; set_solver. }
      rewrite Forall_forall in Hok.
      destruct (lit_ok_cases _ _ (Hok _ Hin)) as [Ht|[Hfy|Huy]];
        [|done|by apply Hrest in Huy].
      destruct Hno. apply Exists_exists. eauto. }
    split; [split; [discriminate|tauto]|].
    split; [split; [discriminate|tauto]|].
    intros l. split.
    + intros [= <-]. eauto.
    + intros (pre' & post' & Hcl' & Hl & Hall'). f_equal.
      rewrite Hcl', filter_unassigned_one in Hlast by done.
      simpl in Hlast. congruence.
  - split; [split; [discriminate|tauto]|].
    split; [split; [discriminate|tauto]|].
    intros l. split; [discriminate|].
    intros (pre' & post' & Hcl' & Hl & Hall'). exfalso. apply Hu.
    by rewrite Hcl', filter_unassigned_one.
Qed.

(** ** Backtracking *)

Lemma same_frame_refl s : same_frame s s.
Proof. by constructor. Qed.

Lemma same_frame_trans s3 s2 s1 :
  same_frame s3 s2 → same_frame s2 s1 → same_frame s3 s1.
Proof. intros [] []. constructor; congruence. Qed.

Lemma backtrack_var_spec lvl lit s :
  (lit < length (value s))%nat →
  (lit < length (decision_level s))%nat →
  (lit < length (antecedent s))%nat →
  (above lvl s lit = true → lit ∈ assigned_lits s) →
  ∃ s1, backtrack_var lvl lit s = Ok s1
    ∧ same_frame s1 s
    ∧ ∀ v, var_record s1 v =
           if bool_decide (v = lit) && above lvl s v then unassigned_record
           else var_record s v.
Proof.
  intros Hv Hd Ha Hin. unfold backtrack_var, getitem, above in *.
  destruct (lookup_lt_is_Some_2 _ _ Hd) as [d Hlit]. rewrite Hlit in *.
  simpl. destruct (Z.ltb_spec lvl d) as [Hlt|Hge].
  - unfold setitem. rewrite !decide_True by done. simpl.
    rewrite decide_True by (apply Hin; by apply bool_decide_eq_true).
    eexists. split; [reflexivity|]. split.
    { constructor; simpl; rewrite ?length_insert; done. }
    intros v. unfold var_record. simpl.
    destruct (decide (v = lit)) as [->|Hne].
    + rewrite (bool_decide_eq_true_2 (lit = lit)) by done. rewrite Hlit.
      rewrite (bool_decide_eq_true_2 (lvl < d)) by done. simpl.
      rewrite !list_lookup_insert_eq by done. unfold unassigned_record.
      f_equal. apply bool_decide_eq_false. set_solver.
    + rewrite (bool_decide_eq_false_2 (v = lit)) by done. simpl.
      rewrite !list_lookup_insert_ne by done. f_equal.
      apply bool_decide_ext. set_solver.
  - exists s. split; [reflexivity|]. split; [apply same_frame_refl|].
    intros v. destruct (decide (v = lit)) as [->|Hne].
    + rewrite Hlit. rewrite (bool_decide_eq_false_2 (lvl < d)) by lia.
      by rewrite andb_false_r.
    + by rewrite (bool_decide_eq_false_2 (v = lit)).
Qed.

Lemma backtrack_vars_spec lvl lits s :
  NoDup lits →
  (∀ v, v ∈ lits → (v < length (value s))%nat
                   ∧ (v < length (decision_level s))%nat
                   ∧ (v < length (antecedent s))%nat) →
  (∀ v, v ∈ lits → above lvl s v = true → v ∈ assigned_lits s) →
  ∃ s', backtrack_vars lvl lits s = Ok s'
    ∧ same_frame s' s
    ∧ ∀ v, var_record s' v =
           if bool_decide (v ∈ lits) && above lvl s v then unassigned_record
           else var_record s v.
Proof.
  intros Hnd. revert s.
  induction Hnd as [|lit lits Hnotin Hnd IH]; intros s Hlen Hin.
  - exists s. split; [reflexivity|]. split; [apply same_frame_refl|].
    intros v. rewrite bool_decide_eq_false_2; [done|]. apply not_elem_of_nil.
  - destruct (Hlen lit) as (Hv & Hd & Ha); [set_solver|].
    destruct (backtrack_var_spec lvl lit s Hv Hd Ha)
      as (s1 & Hs1 & Hframe1 & Hrec1); [apply Hin; set_solver|].
    assert (∀ v, v ≠ lit → var_record s1 v = var_record s v) as Hother.
    { intros v Hne. rewrite Hrec1.
      by rewrite (bool_decide_eq_false_2 (v = lit)). }
    assert (∀ v, v ≠ lit → above lvl s1 v = above lvl s v) as Habove.
    { intros v Hne. specialize (Hother v Hne). unfold var_record in Hother.
      unfold above. by injection Hother as _ -> _ _. }
    destruct (IH s1) as (s' & Hs' & Hframe' & Hrec').
    { intros v Hvin. destruct Hframe1 as [_ _ _ -> -> -> _ _ _].
      apply Hlen. set_solver. }
    { intros v Hvin Hab. assert (v ≠ lit) as Hne by set_solver.
      rewrite Habove in Hab by done.
      specialize (Hother v Hne). unfold var_record in Hother.
      injection Hother as _ _ _ Hb.
      eapply bool_decide_unpack. rewrite Hb. apply bool_decide_pack.
      apply Hin; [set_solver|done]. }
    exists s'. split; [simpl; rewrite Hs1; exact Hs'|].
    split; [by eapply same_frame_trans|].
    intros v. rewrite Hrec'. destruct (decide (v = lit)) as [->|Hne].
    + rewrite (bool_decide_eq_false_2 (lit ∈ lits)) by done. simpl.
      rewrite Hrec1. rewrite (bool_decide_eq_true_2 (lit = lit)) by done.
      rewrite (bool_decide_eq_true_2 (lit ∈ lit :: lits)) by set_solver.
      done.
    + rewrite Habove, Hother by done.
      rewrite (bool_decide_ext (v ∈ lit :: lits) (v ∈ lits)) by set_solver.
      done.
Qed.

(** [backtrack] on a solver whose arrays have their size and whose
    levelled variables are in [assigned_lits]: it returns, and the
    solver it returns is told field by field. *)
Lemma backtrack_run lvl s :
  0 ≤ lvl → arrays_sized s → levelled_assigned s →
  ∃ s', backtrack lvl s = Ok s'
    ∧ (∀ v, var_record s' v =
            if bool_decide (1 ≤ v ≤ num_literals s)%nat && above lvl s v
            then unassigned_record else var_record s v)
    ∧ assignment_history s' =
        filter (λ kv, kv.1 ≤ lvl) (assignment_history s)
    ∧ formula s' = formula s
    ∧ num_literals s' = num_literals s
    ∧ sorted_new_clause_set s' = sorted_new_clause_set s
    ∧ new_clause_limit s' = new_clause_limit s
    ∧ vsids_activity s' = vsids_activity s.
Proof.
  intros Hlvl (Hv & Hd & Ha) Hsync.
  destruct (backtrack_vars_spec lvl (seq 1 (num_literals s)) s)
    as (s1 & Hs1 & Hframe & Hrec).
  { apply NoDup_seq. }
  { intros v Hin. apply elem_of_seq in Hin. rewrite Hv, Hd, Ha. lia. }
  { intros v Hin Hab. apply elem_of_seq in Hin. unfold above in Hab.
    destruct (decision_level s !! v) as [d|] eqn:E; [|done].
    apply bool_decide_eq_true in Hab. apply (Hsync v d); [lia|done|lia]. }
  destruct Hframe as [Hhist Hform Hnum _ _ _ Hset Hlim Hact].
  eexists. split; [unfold backtrack; rewrite Hs1; reflexivity|]. simpl.
  split; [|by rewrite Hhist].
  intros v.
  rewrite (bool_decide_ext (1 ≤ v ≤ num_literals s)%nat
             (v ∈ seq 1 (num_literals s)))
    by (rewrite elem_of_seq; lia).
  exact (Hrec v).
Qed.

(** C6. For a level [lvl] from 0 on, [backtrack lvl] returns (it raises
    nothing on a solver whose arrays have their size and whose levelled
    variables are in [assigned_lits]); a variable whose decision level is
    above [lvl] has afterwards value 0, level -1, antecedent -1 and is out
    of [assigned_lits]; the record of every other index, the variables at
    the sentinel level -999 among them, is as before; and
    [assignment_history] keeps its entries at the keys up to [lvl] and
    has no key above [lvl]. The clauses are not touched. *)
Theorem backtrack_spec (lvl : Z) (s : CDCLSolver) :
  0 ≤ lvl → arrays_sized s → levelled_assigned s →
  ∃ s', backtrack lvl s = Ok s'
    ∧ (∀ v, (1 ≤ v ≤ num_literals s)%nat → above lvl s v = true →
            var_record s' v = unassigned_record)
    ∧ (∀ v, above lvl s v = false → var_record s' v = var_record s v)
    ∧ (∀ v d, decision_level s !! v = Some d → d = -999 →
              var_record s' v = var_record s v)
    ∧ assigned_lits s' ⊆ assigned_lits s
    ∧ (∀ k, k ≤ lvl → assignment_history s' !! k = assignment_history s !! k)
    ∧ (∀ k, k ∈ dom (assignment_history s') → k ≤ lvl)
    ∧ formula s' = formula s.
Proof.
  intros Hlvl Hsized Hsync.
  destruct (backtrack_run lvl s Hlvl Hsized Hsync)
    as (s' & Hs' & Hrec & Hhist & Hform & _).
  assert (∀ v, above lvl s v = false → var_record s' v = var_record s v)
    as Hkeep.
  { intros v Hab. rewrite Hrec, Hab. by rewrite andb_false_r. }
  exists s'. split; [exact Hs'|].
  split; [|split; [|split; [|split; [|split; [|split]]]]].
  - intros v Hrange Hab. rewrite Hrec, Hab.
    by rewrite bool_decide_eq_true_2.
  - exact Hkeep.
  - intros v d Hlev ->. apply Hkeep. unfold above. rewrite Hlev.
    apply bool_decide_eq_false. lia.
  - intros v Hin. specialize (Hrec v). unfold var_record in Hrec.
    destruct (bool_decide (1 ≤ v ≤ num_literals s)%nat && above lvl s v).
    + injection Hrec as _ _ _ Hb.
      apply (bool_decide_eq_false (v ∈ assigned_lits s')) in Hb. done.
    + injection Hrec as _ _ _ Hb. eapply bool_decide_unpack.
      rewrite <- Hb. by apply bool_decide_pack.
  - intros k Hk. rewrite Hhist.
    destruct (assignment_history s !! k) as [l|] eqn:E.
    + apply map_lookup_filter_Some. done.
    + apply map_lookup_filter_None. left. done.
  - intros k Hk. rewrite Hhist in Hk. apply elem_of_dom in Hk as [l Hl].
    apply map_lookup_filter_Some in Hl as [_ Hle]. exact Hle.
  - exact Hform.
Qed.

Lemma check_clause_status_spec_witness :
  Forall (lit_ok (value solver_mid)) [-1; 2; -3]
  ∧ ∃ st, check_clause_status solver_mid [-1; 2; -3] = Ok st
      ∧ (st = SAT ↔ Exists (lit_true (value solver_mid)) [-1; 2; -3])
      ∧ (st = UNSAT ↔ Forall (lit_false (value solver_mid)) [-1; 2; -3])
      ∧ (∀ l, st = Unit l ↔
           ∃ pre post, [-1; 2; -3] = pre ++ l :: post
             ∧ lit_unassigned (value solver_mid) l
             ∧ Forall (lit_false (value solver_mid)) (pre ++ post)).
Proof.
  assert (Forall (lit_ok (value solver_mid)) [-1; 2; -3]) as Hok.
  { repeat constructor; try lia; simpl; eauto. }
  split; [exact Hok|].
  exact (check_clause_status_spec solver_mid [-1; 2; -3] Hok).
Defined.

Lemma backtrack_spec_witness :
  0 ≤ 0 ∧ arrays_sized solver_mid ∧ levelled_assigned solver_mid
  ∧ ∃ s', backtrack 0 solver_mid = Ok s'
      ∧ (∀ v, (1 ≤ v ≤ num_literals solver_mid)%nat →
              above 0 solver_mid v = true →
              var_record s' v = unassigned_record)
      ∧ (∀ v, above 0 solver_mid v = false →
              var_record s' v = var_record solver_mid v)
      ∧ (∀ v d, decision_level solver_mid !! v = Some d → d = -999 →
                var_record s' v = var_record solver_mid v)
      ∧ assigned_lits s' ⊆ assigned_lits solver_mid
      ∧ (∀ k, k ≤ 0 →
              assignment_history s' !! k = assignment_history solver_mid !! k)
      ∧ (∀ k, k ∈ dom (assignment_history s') → k ≤ 0)
      ∧ formula s' = formula solver_mid.
Proof.
  assert (arrays_sized solver_mid) as Hsized by (repeat split).
  assert (levelled_assigned solver_mid) as Hsync.
  { intros v d Hrange Hd Hpos. simpl in Hrange.
    assert (v = 1 ∨ v = 2 ∨ v = 3)%nat as [->|[->| ->]] by lia;
      by_compute. }
  split; [lia|]. split; [exact Hsized|]. split; [exact Hsync|].
  exact (backtrack_spec 0 solver_mid (Z.le_refl 0) Hsized Hsync).
Defined.

(** The run of [solver_mid] through [backtrack 0]. *)
Example backtrack_solver_mid :
  ∃ s', backtrack 0 solver_mid = Ok s'
    ∧ value s' = [0; 1; 0; 1]
    ∧ decision_level s' = [-1; 0; -1; -999]
    ∧ antecedent s' = [-1; 0; -1; -1]
    ∧ assigned_lits s' = {[1%nat; 3%nat]}
    ∧ map_to_list (assignment_history s') = [(0, [1])].
Proof.
  eexists. split; [vm_compute; reflexivity|].
  repeat split; vm_compute; reflexivity.
Qed.

(** ** What unit propagation does establish *)

Lemma bind_Ok {A B} (f : A → result B) (m : result A) (b : B) :
  m ≫= f = Ok b → ∃ a, m = Ok a ∧ f a = Ok b.
Proof. destruct m as [a| |]; simpl; [eauto|discriminate..]. Qed.

Lemma Ok_bind {A B} (a : A) (f : A → result B) : Ok a ≫= f = f a.
Proof. reflexivity. Qed.

(** A pass that returns a conflict returns the position of a clause that
    [check_clause_status] finds falsified. *)
Lemma rescan_from_conflict s clauses start q index :
  rescan_from s clauses start q = Ok (inl index) →
  ∃ clause, clauses !! (index - start)%nat = Some clause
    ∧ (start ≤ index)%nat
    ∧ check_clause_status s clause = Ok UNSAT.
Proof.
  revert start q. induction clauses as [|clause clauses IH]; intros start q H.
  - discriminate.
  - simpl in H. apply bind_Ok in H as (feedback & Hfb & H).
    assert (∀ q', rescan_from s clauses (S start) q' = Ok (inl index) →
              ∃ clause0, (clause :: clauses) !! (index - start)%nat
                         = Some clause0
                ∧ (start ≤ index)%nat
                ∧ check_clause_status s clause0 = Ok UNSAT) as Hrec.
    { intros q' Hq'. destruct (IH _ _ Hq') as (c & Hc & Hle & Hst).
      exists c. split; [|split; [lia|done]].
      replace (index - start)%nat with (S (index - S start)) by lia.
      exact Hc. }
    destruct feedback as [| |lit|]; eauto.
    + injection H as <-. exists clause.
      rewrite Nat.sub_diag. done.
    + destruct (decide (lit ∈ unit_clause_set q)); eauto.
Qed.

(** A pass that ends without a conflict has met no falsified clause. *)
Lemma rescan_from_no_conflict s clauses start q q' :
  rescan_from s clauses start q = Ok (inr q') →
  ∀ clause, clause ∈ clauses → check_clause_status s clause ≠ Ok UNSAT.
Proof.
  revert start q. induction clauses as [|clause clauses IH]; intros start q H.
  - intros c Hc. by apply not_elem_of_nil in Hc.
  - simpl in H. apply bind_Ok in H as (feedback & Hfb & H).
    intros c Hc. apply elem_of_cons in Hc as [->|Hc].
    + rewrite Hfb. destruct feedback; try discriminate. 
    + destruct feedback as [| |lit|]; try discriminate;
        [|destruct (decide (lit ∈ unit_clause_set q))|]; by eapply IH.
Qed.

Lemma assign_value_formula lit a d s s' :
  assign_value lit a d s = Ok s' → formula s' = formula s.
Proof.
  unfold assign_value. destruct (decide _); [discriminate|].
  intros H. apply bind_Ok in H as (v & _ & H).
  apply bind_Ok in H as (a' & _ & H). apply bind_Ok in H as (d' & _ & H).
  by injection H as <-.
Qed.

(** The loop of [unit_propagation], when it returns the id of a clause:
    the clause is falsified in the solver it returns, and the clauses are
    those it started with. *)
Lemma propagate_loop_conflict fuel lvl q s i s' :
  propagate_loop fuel lvl q s = Ok (i, s') → 0 ≤ i →
  formula s' = formula s
  ∧ ∃ clause, formula s' !! Z.to_nat i = Some clause
      ∧ check_clause_status s' clause = Ok UNSAT.
Proof.
  revert q s. induction fuel as [|fuel IH]; intros q s H Hi; [discriminate|].
  simpl in H.
  destruct (list_pop (unit_clauses q)) as [[unit ucs]|];
    [|injection H as <- <-; lia].
  destruct (list_pop (unit_antecedents q)) as [[ua uas]|]; [|discriminate].
  destruct (decide (unit ∈ unit_clause_set q)); [|discriminate].
  apply bind_Ok in H as (s1 & Hs1 & H).
  pose proof (assign_value_formula _ _ _ _ _ Hs1) as Hf1.
  destruct (assignment_history s1 !! lvl) as [seq|]; [|discriminate].
  apply bind_Ok in H as (r & Hr & H).
  destruct r as [index|q2].
  - injection H as <- <-. rewrite Nat2Z.id.
    apply rescan_from_conflict in Hr as (clause & Hc & _ & Hst).
    rewrite Nat.sub_0_r in Hc. simpl in Hc.
    destruct (generate_proof _); simpl; (split; [done|]); eauto.
  - apply IH in H as [Hf H]; [|done]. simpl in Hf. split; [congruence|done].
Qed.

(** The loop of [unit_propagation], when it returns -111 from a solver
    without a falsified clause: there is none in the solver it returns. *)
Lemma propagate_loop_no_conflict fuel lvl q s s' :
  propagate_loop fuel lvl q s = Ok (-111, s') →
  conflict_free s → conflict_free s'.
Proof.
  revert q s. induction fuel as [|fuel IH]; intros q s H Hfree; [discriminate|].
  simpl in H.
  destruct (list_pop (unit_clauses q)) as [[unit ucs]|];
    [|by injection H as <-].
  destruct (list_pop (unit_antecedents q)) as [[ua uas]|]; [|discriminate].
  destruct (decide (unit ∈ unit_clause_set q)); [|discriminate].
  apply bind_Ok in H as (s1 & Hs1 & H).
  destruct (assignment_history s1 !! lvl) as [seq|]; [|discriminate].
  apply bind_Ok in H as (r & Hr & H).
  destruct r as [index|q2]; [injection H as H _; lia|].
  eapply IH; [exact H|].
  intros clause Hin. by eapply rescan_from_no_conflict.
Qed.

(** When [unit_propagation] returns the id of a clause, that clause is
    falsified in the solver it returns. *)
Lemma unit_propagation_conflict fuel lvl s i s' :
  unit_propagation fuel lvl s = Ok (i, s') → 0 ≤ i →
  formula s' = formula s
  ∧ ∃ clause, formula s' !! Z.to_nat i = Some clause
      ∧ check_clause_status s' clause = Ok UNSAT.
Proof.
  unfold unit_propagation. intros H Hi.
  apply bind_Ok in H as (q & _ & H). by eapply propagate_loop_conflict.
Qed.

(** When [unit_propagation] is called on a solver without a falsified
    clause and returns -111, no clause is falsified in the solver it
    returns. *)
Lemma unit_propagation_no_conflict fuel lvl s s' :
  unit_propagation fuel lvl s = Ok (-111, s') →
  conflict_free s → conflict_free s'.
Proof.
  unfold unit_propagation. intros H.
  apply bind_Ok in H as (q & _ & H). by eapply propagate_loop_no_conflict.
Qed.

(** ** Canonical clauses *)

Lemma insert_sorted_spec x l :
  StronglySorted Z.lt l →
  StronglySorted Z.lt (insert_sorted x l)
  ∧ ∀ y, y ∈ insert_sorted x l ↔ y = x ∨ y ∈ l.
Proof.
  induction 1 as [|z l Hsorted IH Hall]; simpl.
  - split; [repeat constructor|]. intros y. set_solver.
  - destruct (Z.ltb_spec x z) as [Hlt|Hge].
    + split; [|intros y; set_solver].
      constructor; [by constructor|]. constructor; [done|].
      eapply Forall_impl; [exact Hall|]. intros; simpl in *; lia.
    + destruct (Z.eqb_spec x z) as [->|Hne].
      * split; [by constructor|]. intros y. set_solver.
      * destruct IH as [IHs IHe]. split; [|intros y; set_solver].
        constructor; [exact IHs|]. apply Forall_forall. intros y Hy.
        apply IHe in Hy as [->|Hy]; [lia|].
        rewrite Forall_forall in Hall. by apply Hall.
Qed.

Lemma frozenset_sorted_sorted clause :
  StronglySorted Z.lt (frozenset_sorted clause).
Proof.
  induction clause as [|x clause IH]; [constructor|].
  by apply insert_sorted_spec.
Qed.

(** A sorted clause is its own canonical form. *)
Lemma frozenset_sorted_id l :
  StronglySorted Z.lt l → frozenset_sorted l = l.
Proof.
  induction 1 as [|z l Hsorted IH Hall]; [done|].
  unfold frozenset_sorted in *. simpl. rewrite IH.
  destruct l as [|y l]; [done|]. simpl.
  apply Forall_cons in Hall as [Hzy _].
  by rewrite (proj2 (Z.ltb_lt z y)).
Qed.

Lemma frozenset_sorted_idemp clause :
  frozenset_sorted (frozenset_sorted clause) = frozenset_sorted clause.
Proof. apply frozenset_sorted_id, frozenset_sorted_sorted. Qed.

(** ** Conflict analysis on a history in order *)

(** *** Literals *)

Lemma lit_true_false_opp value p q :
  lit_true value p → lit_false value q → Z.abs_nat q = Z.abs_nat p →
  q = - p.
Proof.
  unfold lit_true, lit_false. intros Hp Hq E. rewrite E in Hq.
  destruct Hp as [[? Hp]|[? Hp]], Hq as [[? Hq]|[? Hq]];
    rewrite Hp in Hq; try discriminate; lia.
Qed.

Lemma lit_false_same_var value q q' :
  lit_false value q → lit_false value q' → Z.abs_nat q = Z.abs_nat q' →
  q = q'.
Proof.
  unfold lit_false. intros Hq Hq' E. rewrite E in Hq.
  destruct Hq as [[? Hq]|[? Hq]], Hq' as [[? Hq']|[? Hq']];
    rewrite Hq in Hq'; try discriminate; lia.
Qed.

Lemma lit_false_opp_true value q :
  lit_false value q → lit_true value (- q).
Proof.
  unfold lit_true, lit_false.
  assert (Z.abs_nat (- q) = Z.abs_nat q) as -> by lia.
  intros [[? H]|[? H]]; [right|left]; split; (lia || done).
Qed.

Lemma lit_true_nonzero value p : lit_true value p → p ≠ 0.
Proof. intros [[? _]|[? _]]; lia. Qed.

(** *** Counting the literals of the current level *)

Lemma count_current_lvl_spec s lvl clause :
  falsified s clause →
  count_current_lvl s lvl clause = Ok (length (at_level s lvl clause)).
Proof.
  induction 1 as [|lit clause [_ [d Hd]] _ IH]; [done|].
  simpl. unfold getitem. unfold level_of in Hd. rewrite Hd. simpl.
  rewrite IH. simpl. unfold at_level.
  destruct (Z.eqb_spec d lvl) as [->|Hne].
  - by rewrite filter_cons_True.
  - rewrite filter_cons_False; [done|]. unfold level_of. rewrite Hd.
    congruence.
Qed.

(** *** The latest propagated literal *)

Lemma find_latest_in_spec s learnt_clause seq :
  (∀ p, p ∈ seq → is_Some (antecedent s !! Z.abs_nat p)) →
  (find_latest_in s learnt_clause (reverse seq) = Ok None
   ∧ ∀ p, p ∈ seq → ¬ propagated_in s learnt_clause p)
  ∨ ∃ i p, find_latest_in s learnt_clause (reverse seq) = Ok (Some p)
      ∧ seq !! i = Some p
      ∧ propagated_in s learnt_clause p
      ∧ ∀ j q, (i < j)%nat → seq !! j = Some q →
               ¬ propagated_in s learnt_clause q.
Proof.
  induction seq as [|x seq IH] using rev_ind; intros Hante.
  - left. split; [done|]. intros p Hp. by apply not_elem_of_nil in Hp.
  - rewrite reverse_snoc. simpl.
    destruct (Hante x) as [a Ha]; [set_solver|].
    unfold getitem. rewrite Ha. simpl.
    destruct (decide (propagated_in s learnt_clause x)) as [Hx|Hx].
    + right. exists (length seq), x.
      assert (negb (a =? -1)
              && (bool_decide (x ∈ learnt_clause)
                  || bool_decide (- x ∈ learnt_clause)) = true) as ->.
      { destruct Hx as [(a' & Ha' & Hne) Hin].
        assert (a' = a) as -> by congruence.
        apply andb_true_iff. split.
        - apply negb_true_iff. by apply Z.eqb_neq.
        - apply orb_true_iff.
          destruct Hin; [left|right]; by apply bool_decide_eq_true. }
      split; [done|]. split; [by apply list_lookup_middle|].
      split; [done|]. intros j q Hj Hq.
      apply lookup_lt_Some in Hq. rewrite length_app in Hq. simpl in Hq. lia.
    + assert (negb (a =? -1)
              && (bool_decide (x ∈ learnt_clause)
                  || bool_decide (- x ∈ learnt_clause)) = false) as ->.
      { apply not_true_iff_false. intros E. apply Hx.
        apply andb_true_iff in E as [E1 E2]. split.
        - exists a. split; [done|].
          apply negb_true_iff in E1. by apply Z.eqb_neq.
        - apply orb_true_iff in E2 as [E2|E2];
            apply bool_decide_eq_true in E2; auto. }
      destruct IH as [[HNone Hno]|(i & p & Hrun & Hi & Hp & Hafter)].
      * intros p Hp. apply Hante. set_solver.
      * left. split; [done|]. intros p Hp.
        apply elem_of_app in Hp as [Hp|Hp]; [by apply Hno|].
        apply list_elem_of_singleton in Hp as ->. done.
      * right. exists i, p. split; [done|].
        split; [by apply lookup_app_l_Some|]. split; [done|].
        intros j q Hj Hq.
        destruct (decide (j < length seq)%nat) as [Hlt|Hge].
        -- rewrite lookup_app_l in Hq by done. by eapply Hafter.
        -- rewrite lookup_app_r in Hq by lia.
           apply list_lookup_singleton_Some in Hq as [_ <-]. done.
Qed.

(** *** Sets of literals and resolution *)

Lemma set_add_spec x l :
  NoDup l → NoDup (set_add x l) ∧ ∀ y, y ∈ set_add x l ↔ y = x ∨ y ∈ l.
Proof.
  intros Hnd. unfold set_add. destruct (decide (x ∈ l)) as [Hin|Hnotin].
  - split; [done|]. intros y. set_solver.
  - split; [|intros y; set_solver].
    apply NoDup_app. split; [done|]. split; [set_solver|].
    apply NoDup_singleton.
Qed.

Lemma set_remove_spec x l :
  NoDup l → NoDup (set_remove x l) ∧ ∀ y, y ∈ set_remove x l ↔ y ∈ l ∧ y ≠ x.
Proof.
  intros Hnd. unfold set_remove. split; [by apply NoDup_filter|].
  intros y. rewrite list_elem_of_filter. tauto.
Qed.

Lemma pyset_from_spec acc l :
  NoDup acc →
  NoDup (foldl (λ acc x, set_add x acc) acc l)
  ∧ ∀ y, y ∈ foldl (λ acc x, set_add x acc) acc l ↔ y ∈ acc ∨ y ∈ l.
Proof.
  revert acc. induction l as [|x l IH]; intros acc Hnd; simpl.
  - split; [done|]. intros y. set_solver.
  - destruct (set_add_spec x acc Hnd) as [Hnd' Hin'].
    destruct (IH _ Hnd') as [Hnd'' Hin'']. split; [done|].
    intros y. rewrite Hin'', Hin'. set_solver.
Qed.

Lemma pyset_spec l : NoDup (pyset l) ∧ ∀ y, y ∈ pyset l ↔ y ∈ l.
Proof.
  destruct (pyset_from_spec [] l) as [Hnd Hin]; [constructor|].
  split; [done|]. intros y. rewrite Hin. set_solver.
Qed.

(** The step of [resolve] on false literals adds them. *)
Lemma resolve_false value acc clause :
  NoDup acc → Forall (lit_false value) acc →
  Forall (lit_false value) clause →
  let r := foldl (λ new_clause lit,
                    if decide (- lit ∈ new_clause)
                    then set_remove (- lit) new_clause
                    else set_add lit new_clause) acc clause in
  NoDup r ∧ Forall (lit_false value) r ∧ ∀ y, y ∈ r ↔ y ∈ acc ∨ y ∈ clause.
Proof.
  intros Hnd Hacc Hcl. revert acc Hnd Hacc.
  induction Hcl as [|q clause Hq Hcl IH]; intros acc Hnd Hacc; simpl.
  - split; [done|]. split; [done|]. intros y. set_solver.
  - rewrite decide_False.
    + destruct (set_add_spec q acc Hnd) as [Hnd' Hin'].
      destruct (IH (set_add q acc)) as (Hnd'' & Hf'' & Hin''); [done| |].
      { apply Forall_forall. intros y Hy. apply Hin' in Hy as [->|Hy];
          [done|]. rewrite Forall_forall in Hacc. by apply Hacc. }
      split; [done|]. split; [done|]. intros y. rewrite Hin'', Hin'.
      set_solver.
    + intros Hin. rewrite Forall_forall in Hacc.
      apply (lit_true_not_false value (- q)); [|by apply Hacc].
      by apply lit_false_opp_true.
Qed.

(** Resolution of a falsified clause that holds [-p] with a clause in
    which [p] is true and the other literals are false. *)
Lemma resolve_spec value l pre p post :
  Forall (lit_false value) l → lit_true value p → - p ∈ l →
  Forall (lit_false value) (pre ++ post) →
  (- p) ∉ pre ++ post →
  NoDup (resolve l (pre ++ p :: post))
  ∧ Forall (lit_false value) (resolve l (pre ++ p :: post))
  ∧ ∀ y, y ∈ resolve l (pre ++ p :: post)
         ↔ (y ∈ l ∧ y ≠ - p) ∨ y ∈ pre ++ post.
Proof.
  intros Hl Hp Hin Hrest Hnop. unfold resolve.
  apply Forall_app in Hrest as [Hpre Hpost].
  destruct (pyset_spec l) as [Hnd0 Hin0].
  assert (Forall (lit_false value) (pyset l)) as Hf0.
  { apply Forall_forall. intros y Hy. apply Hin0 in Hy.
    rewrite Forall_forall in Hl. by apply Hl. }
  rewrite foldl_app. simpl.
  destruct (resolve_false value (pyset l) pre Hnd0 Hf0 Hpre)
    as (Hnd1 & Hf1 & Hin1).
  set (acc1 := foldl _ (pyset l) pre) in *.
  rewrite decide_True by (apply Hin1; left; by apply Hin0).
  destruct (set_remove_spec (- p) acc1 Hnd1) as [Hnd2 Hin2].
  assert (Forall (lit_false value) (set_remove (- p) acc1)) as Hf2.
  { apply Forall_forall. intros y Hy. apply Hin2 in Hy as [Hy _].
    rewrite Forall_forall in Hf1. by apply Hf1. }
  destruct (resolve_false value _ post Hnd2 Hf2 Hpost) as (Hnd3 & Hf3 & Hin3).
  split; [done|]. split; [done|]. intros y.
  rewrite Hin3, Hin2, Hin1, Hin0, elem_of_app.
  split; [tauto|]. intros [[? ?]|[Hy|Hy]]; [tauto| |tauto].
  left. split; [tauto|]. intros ->. apply Hnop. set_solver.
Qed.

(** *** The loop *)

Lemma trail_index_lt seq i p n :
  NoDup (Z.abs_nat <$> seq) → seq !! i = Some p →
  Z.abs_nat p ∈ Z.abs_nat <$> take n seq → (i < n)%nat.
Proof.
  intros Hnd Hi Hin. apply list_elem_of_fmap in Hin as (q & E & Hq).
  apply list_elem_of_lookup in Hq as [j Hj].
  apply lookup_take_Some in Hj as [Hj Hlt].
  assert (i = j) as ->; [|done].
  eapply NoDup_lookup; [exact Hnd| |]; rewrite list_lookup_fmap.
  - by rewrite Hi.
  - rewrite Hj. simpl. by rewrite E.
Qed.

Lemma same_var_cases (q q' : Z) :
  Z.abs_nat q = Z.abs_nat q' → q = q' ∨ q = - q'.
Proof. lia. Qed.

Lemma two_elements {A} `{EqDecision A} (l : list A) (x : A) :
  NoDup l → l ≠ [] → length l ≠ 1%nat → ∃ y, y ∈ l ∧ y ≠ x.
Proof.
  intros Hnd Hne Hlen. destruct l as [|a [|b l]]; [done|done|].
  apply NoDup_cons in Hnd as [Hab _].
  destruct (decide (a = x)) as [->|Hax].
  - exists b. split; [set_solver|]. intros ->. set_solver.
  - exists a. split; [set_solver|done].
Qed.

(** The loop of [find_one_uip_cut], on a history that agrees with the
    arrays and a falsified clause whose literals of the current level lie
    among the first [n] of the history: with fuel above [n] it returns a
    falsified clause in which either no literal of the history with an
    antecedent occurs, or exactly one literal is of the current level,
    which is not 0. [Φ] is any property of the false literals of the
    clauses of the formula. *)
Lemma uip_loop_spec s lvl seq (Φ : Z → Prop) :
  trail_ok s lvl seq →
  (∀ clause q, clause ∈ formula s → q ∈ clause →
               lit_false (value s) q → Φ q) →
  ∀ fuel n learnt prev parents,
    (n < fuel)%nat →
    NoDup (items learnt) → falsified s (items learnt) →
    Forall Φ (items learnt) →
    (∀ q, q ∈ items learnt → level_of s q = Some lvl →
          Z.abs_nat q ∈ Z.abs_nat <$> take n seq) →
    (lvl ≠ 0 → at_level s lvl (items learnt) ≠ []) →
    pyclause_neq learnt prev = true →
    ∃ cut parents',
      uip_loop fuel s lvl learnt prev parents = Ok (cut, parents')
      ∧ NoDup (items cut) ∧ falsified s (items cut) ∧ Forall Φ (items cut)
      ∧ (lvl ≠ 0 → at_level s lvl (items cut) ≠ [])
      ∧ ((∀ p, p ∈ seq → ¬ propagated_in s (items cut) p)
         ∨ (length (at_level s lvl (items cut)) = 1%nat ∧ lvl ≠ 0)).
Proof.
  intros Htrail HΦ fuel.
  induction fuel as [|fuel IH];
    intros n learnt prev parents Hfuel Hnd Hfalse HPhi Hbound Hsome Hneq;
    [lia|].
  cbn [uip_loop]. rewrite Hneq.
  rewrite count_current_lvl_spec by done. rewrite Ok_bind.
  unfold find_latest_assignment. rewrite (trail_history _ _ _ Htrail).
  destruct (find_latest_in_spec s (items learnt) seq)
    as [[Hrun Hnone]|(i & p & Hrun & Hi & Hp & Hafter)].
  { intros p Hp. apply list_elem_of_lookup in Hp as [i Hi].
    destruct (trail_antecedent _ _ _ Htrail i p Hi) as (a & Ha & _). eauto. }
  { rewrite Hrun, Ok_bind. exists learnt, parents. auto 10. }
  rewrite Hrun, Ok_bind.
  assert (p ∈ seq) as Hpseq by (by eapply list_elem_of_lookup_2).
  pose proof (trail_true _ _ _ Htrail p Hpseq) as Hptrue.
  rewrite (proj2 (Z.eqb_neq p 0)) by (by eapply lit_true_nonzero).
  destruct (bool_decide (length (at_level s lvl (items learnt)) = 1%nat)
            && negb (lvl =? 0)) eqn:Hbreak.
  { apply andb_true_iff in Hbreak as [H1 H2].
    apply bool_decide_eq_true in H1. apply negb_true_iff, Z.eqb_neq in H2.
    exists learnt, parents. auto 10. }
  (* the resolution step *)
  destruct Hp as [(a & Ha & Hane) Hpin].
  destruct (trail_antecedent _ _ _ Htrail i p Hi) as (a' & Ha' & Himp).
  assert (a' = a) as -> by congruence.
  destruct (Himp Hane) as (Hapos & pre & post & Hcl & Hrest & Hearlier).
  unfold falsified in *.
  assert (Forall (lit_false (value s)) (items learnt)) as Hfl.
  { eapply Forall_impl; [exact Hfalse|]. by intros ? [? _]. }
  assert (Forall (lit_false (value s)) (pre ++ post)) as Hfr.
  { eapply Forall_impl; [exact Hrest|]. by intros ? [? _]. }
  assert (- p ∈ items learnt) as Hopp.
  { destruct Hpin as [Hpin|Hpin]; [|done]. exfalso.
    rewrite Forall_forall in Hfl.
    by apply (lit_true_not_false _ _ Hptrue), Hfl. }
  assert (level_of s (- p) = Some lvl) as Hopplvl.
  { unfold level_of. replace (Z.abs_nat (- p)) with (Z.abs_nat p) by lia.
    apply (trail_level _ _ _ Htrail p Hpseq). }
  assert (i < n)%nat as Hin.
  { eapply trail_index_lt; [apply (trail_nodup _ _ _ Htrail)|exact Hi|].
    replace (Z.abs_nat p) with (Z.abs_nat (- p)) by lia.
    by apply Hbound. }
  assert ((- p) ∉ pre ++ post) as Hnop.
  { intros Hin'. specialize (Hearlier _ Hin' Hopplvl).
    replace (Z.abs_nat (- p)) with (Z.abs_nat p) in Hearlier by lia.
    pose proof (trail_index_lt _ _ _ _ (trail_nodup _ _ _ Htrail) Hi
                  Hearlier). lia. }
  destruct (resolve_spec (value s) (items learnt) pre p post
              Hfl Hptrue Hopp Hfr Hnop) as (Hnd1 & Hf1 & Hin1).
  unfold getitem at 1. rewrite Ha, Ok_bind.
  unfold getitem_Z, getitem. rewrite (proj2 (Z.leb_le 0 a)) by done.
  rewrite Hcl, Ok_bind.
  set (learnt1 := resolve (items learnt) (pre ++ p :: post)) in *.
  destruct (IH i (PyList learnt1) learnt
              (if generate_proof s then parents ++ [Some a] else parents))
    as (cut & parents' & Hcut & Hrest');
    [lia|exact Hnd1| | | | | |eauto].
  - apply Forall_forall. intros q Hq. split;
      [rewrite Forall_forall in Hf1; by apply Hf1|].
    apply Hin1 in Hq as [[Hq _]|Hq].
    + rewrite Forall_forall in Hfalse. by apply Hfalse.
    + rewrite Forall_forall in Hrest. by apply Hrest.
  - apply Forall_forall. intros q Hq.
    apply Hin1 in Hq as [[Hq _]|Hq].
    + rewrite Forall_forall in HPhi. by apply HPhi.
    + apply (HΦ (pre ++ p :: post)).
      * by eapply list_elem_of_lookup_2.
      * apply elem_of_app in Hq as [?|?]; set_solver.
      * rewrite Forall_forall in Hfr. by apply Hfr.
  - intros q Hq Hqlvl. simpl in Hq.
    apply Hin1 in Hq as [[Hq Hqp]|Hq]; [|by apply Hearlier].
    pose proof (Hbound q Hq Hqlvl) as Hqn.
    apply list_elem_of_fmap in Hqn as (q' & E & Hq').
    apply list_elem_of_lookup in Hq' as [j Hj].
    apply lookup_take_Some in Hj as [Hj Hjn].
    assert (q' ≠ p) as Hq'p.
    { intros ->. apply Hqp. rewrite Forall_forall in Hfl.
      by apply (lit_true_false_opp (value s)); [|apply Hfl|]. }
    assert (j ≠ i) as Hji by (intros ->; congruence).
    assert (j < i)%nat as Hlt.
    { destruct (trail_antecedent _ _ _ Htrail j q' Hj) as (aq & Haq & _).
      destruct (decide (aq = -1)) as [->|Haq1].
      - pose proof (trail_decision _ _ _ Htrail j q' Hj Haq). lia.
      - destruct (decide (i < j)%nat) as [Hij|Hij]; [|lia]. exfalso.
        apply (Hafter j q' Hij Hj). split; [eauto|].
        destruct (same_var_cases _ _ E) as [-> | ->]; [by left|by right]. }
    rewrite E. apply list_elem_of_fmap_2.
    apply list_elem_of_lookup. exists j. by apply lookup_take_Some.
  - intros Hlvl. simpl.
    assert (length (at_level s lvl (items learnt)) ≠ 1%nat) as Hcount.
    { intros Hone. rewrite Hone in Hbreak.
      rewrite (proj2 (Z.eqb_neq lvl 0)) in Hbreak by done. done. }
    destruct (two_elements (at_level s lvl (items learnt)) (- p))
      as (q & Hq & Hqp); [by apply NoDup_filter|by apply Hsome|done|].
    apply list_elem_of_filter in Hq as [Hqlvl Hq].
    assert (q ∈ at_level s lvl learnt1) as Hq1.
    { apply list_elem_of_filter. split; [done|]. apply Hin1. by left. }
    intros E. rewrite E in Hq1. by apply not_elem_of_nil in Hq1.
  - destruct learnt as [l|l]; [done|]. simpl.
    apply negb_true_iff, bool_decide_eq_false. intros E.
    simpl in Hopp. rewrite <- E in Hopp. apply Hin1 in Hopp as [[_ ?]|?];
      done.
Qed.

(** *** The cut *)

Lemma frozenset_sorted_elem clause x :
  x ∈ frozenset_sorted clause ↔ x ∈ clause.
Proof.
  induction clause as [|y clause IH]; [done|].
  unfold frozenset_sorted in *. simpl.
  destruct (insert_sorted_spec y (foldr insert_sorted [] clause)) as [_ Hin];
    [apply frozenset_sorted_sorted|].
  rewrite Hin, IH. set_solver.
Qed.

Lemma all_equal_length {A} (l : list A) :
  NoDup l → (∀ x y, x ∈ l → y ∈ l → x = y) → l ≠ [] → length l = 1%nat.
Proof.
  intros Hnd Heq Hne. destruct l as [|a [|b l]]; [done|done|].
  apply NoDup_cons in Hnd as [Hab _]. exfalso. apply Hab.
  rewrite (Heq a b); set_solver.
Qed.

(** The first call of the loop, on the conflict clause. *)
Lemma find_one_uip_cut_spec s lvl seq (Φ : Z → Prop) fuel conflict_clause :
  trail_ok s lvl seq →
  (∀ clause q, clause ∈ formula s → q ∈ clause →
               lit_false (value s) q → Φ q) →
  (length seq < fuel)%nat →
  conflict_clause ≠ [] →
  falsified s conflict_clause → Forall Φ conflict_clause →
  (lvl ≠ 0 → at_level s lvl conflict_clause ≠ []) →
  ∃ cut parents,
    find_one_uip_cut fuel s lvl conflict_clause = Ok (cut, parents)
    ∧ NoDup (items cut) ∧ falsified s (items cut) ∧ Forall Φ (items cut)
    ∧ (lvl ≠ 0 → at_level s lvl (items cut) ≠ [])
    ∧ ((∀ p, p ∈ seq → ¬ propagated_in s (items cut) p)
       ∨ (length (at_level s lvl (items cut)) = 1%nat ∧ lvl ≠ 0)).
Proof.
  intros Htrail HΦ Hfuel Hne Hfalse HPhi Hsome. unfold find_one_uip_cut.
  destruct (pyset_spec conflict_clause) as [Hnd Hin].
  eapply (uip_loop_spec s lvl seq Φ Htrail HΦ fuel (length seq));
    [done|exact Hnd| | | | |]; simpl.
  - apply Forall_forall. intros q Hq. apply Hin in Hq.
    unfold falsified in Hfalse. rewrite Forall_forall in Hfalse.
    by apply Hfalse.
  - apply Forall_forall. intros q Hq. apply Hin in Hq.
    rewrite Forall_forall in HPhi. by apply HPhi.
  - intros q _ Hq. rewrite take_ge by done.
    by apply (trail_complete _ _ _ Htrail).
  - intros Hlvl E. apply (Hsome Hlvl).
    destruct (at_level s lvl conflict_clause) as [|q l] eqn:E'; [done|].
    assert (q ∈ at_level s lvl (pyset conflict_clause)) as Hq.
    { assert (q ∈ at_level s lvl conflict_clause) as Hq
        by (rewrite E'; left).
      apply list_elem_of_filter in Hq as [? Hq].
      apply list_elem_of_filter. split; [done|]. by apply Hin. }
    rewrite E in Hq. by apply not_elem_of_nil in Hq.
  - apply negb_true_iff, bool_decide_eq_false. simpl. intros E.
    destruct conflict_clause as [|q l]; [done|].
    assert (q ∈ frozenset_sorted (pyset (q :: l))) as Hq.
    { apply frozenset_sorted_elem, Hin. left. }
    rewrite E in Hq. by apply not_elem_of_nil in Hq.
Qed.

(** In a cut where no literal of the history with an antecedent occurs,
    a literal of the current level is the opposite of a literal of the
    history without antecedent. *)
Lemma cut_literal_decision s lvl seq cut q :
  trail_ok s lvl seq →
  (∀ p, p ∈ seq → ¬ propagated_in s cut p) →
  q ∈ cut → level_of s q = Some lvl →
  ∃ p, seq !! 0%nat = Some p ∧ Z.abs_nat p = Z.abs_nat q
       ∧ antecedent s !! Z.abs_nat p = Some (-1).
Proof.
  intros Htrail Hnone Hq Hlvl.
  pose proof (trail_complete _ _ _ Htrail _ Hlvl) as Hin.
  apply list_elem_of_fmap in Hin as (p & E & Hp).
  apply list_elem_of_lookup in Hp as [j Hj].
  destruct (trail_antecedent _ _ _ Htrail j p Hj) as (a & Ha & _).
  destruct (decide (a = -1)) as [->|Hne].
  - pose proof (trail_decision _ _ _ Htrail j p Hj Ha) as ->.
    exists p. auto.
  - exfalso. apply (Hnone p); [by eapply list_elem_of_lookup_2|].
    split; [eauto|].
    destruct (same_var_cases _ _ E) as [-> | ->]; [by left|by right].
Qed.

(** The First-UIP property, on a history that agrees with the arrays:
    for a conflict at a level other than 0, on a falsified clause that
    has a literal of that level, [find_one_uip_cut] returns, with fuel
    above the length of the history, a falsified clause with exactly one
    literal of that level. *)
Lemma find_one_uip_cut_one_literal s lvl seq fuel conflict_clause :
  trail_ok s lvl seq → lvl ≠ 0 →
  (length seq < fuel)%nat →
  falsified s conflict_clause →
  at_level s lvl conflict_clause ≠ [] →
  ∃ cut parents,
    find_one_uip_cut fuel s lvl conflict_clause = Ok (cut, parents)
    ∧ falsified s (items cut)
    ∧ length (at_level s lvl (items cut)) = 1%nat.
Proof.
  intros Htrail Hlvl Hfuel Hfalse Hsome.
  destruct (find_one_uip_cut_spec s lvl seq (λ _, True) fuel conflict_clause)
    as (cut & parents & Hrun & Hnd & Hf & _ & Hsome' & Hend);
    [done|done|done| |done| |done|].
  { intros ->. by apply Hsome. }
  { by apply Forall_forall. }
  exists cut, parents. split; [done|]. split; [done|].
  destruct Hend as [Hnone|[Hone _]]; [|done].
  apply all_equal_length; [by apply NoDup_filter| |by apply Hsome'].
  intros x y Hx Hy.
  apply list_elem_of_filter in Hx as [Hxl Hx].
  apply list_elem_of_filter in Hy as [Hyl Hy].
  destruct (cut_literal_decision s lvl seq _ x Htrail Hnone Hx Hxl)
    as (p & Hp & Ex & _).
  destruct (cut_literal_decision s lvl seq _ y Htrail Hnone Hy Hyl)
    as (p' & Hp' & Ey & _).
  assert (p' = p) as -> by congruence.
  unfold falsified in Hf. rewrite Forall_forall in Hf.
  apply (lit_false_same_var (value s)); [by apply Hf..|congruence].
Qed.

(** A conflict at level 0, on a history that agrees with the arrays and
    has no decision, in a solver where the false literals of the clauses
    are of level 0: the cut is the empty clause and [conflict_analysis]
    returns -1. *)
Lemma conflict_analysis_level0 s seq fuel conflict_clause_id conflict_clause :
  trail_ok s 0 seq →
  (∀ p, p ∈ seq → antecedent s !! Z.abs_nat p ≠ Some (-1)) →
  (∀ clause q, clause ∈ formula s → q ∈ clause →
               lit_false (value s) q → level_of s q = Some 0) →
  (length seq < fuel)%nat →
  0 ≤ conflict_clause_id →
  formula s !! Z.to_nat conflict_clause_id = Some conflict_clause →
  Forall (lit_false (value s)) conflict_clause →
  ∃ s', conflict_analysis fuel conflict_clause_id 0 s = Ok (-1, s').
Proof.
  intros Htrail Hnodec Hzero Hfuel Hid Hcl Hfalse.
  assert (conflict_clause ∈ formula s) as Hin
    by (by eapply list_elem_of_lookup_2).
  assert (Forall (λ q, level_of s q = Some 0) conflict_clause) as HPhi.
  { apply Forall_forall. intros q Hq. apply (Hzero conflict_clause);
      [done..|]. rewrite Forall_forall in Hfalse. by apply Hfalse. }
  assert (falsified s conflict_clause) as Hf.
  { apply Forall_forall. intros q Hq. rewrite Forall_forall in Hfalse, HPhi.
    split; [by apply Hfalse|]. rewrite (HPhi q Hq). eauto. }
  assert (∃ cut parents,
            find_one_uip_cut fuel s 0 conflict_clause = Ok (cut, parents)
            ∧ items cut = []) as (cut & parents & Hrun & Hcut).
  { destruct conflict_clause as [|q0 l0] eqn:Ecl.
    - destruct fuel as [|fuel]; [lia|]. by exists (PySet []), [kappa_conflict_clause s].
    - rewrite <- Ecl in *.
      destruct (find_one_uip_cut_spec s 0 seq
                  (λ q, level_of s q = Some 0) fuel conflict_clause)
        as (cut & parents & Hrun & _ & _ & HPhi' & _ & Hend);
        [done|done|done|by rewrite Ecl|done|done|done|].
      exists cut, parents. split; [done|].
      destruct Hend as [Hnone|[_ ?]]; [|done].
      destruct (items cut) as [|q l]; [done|]. exfalso.
      apply Forall_cons in HPhi' as [Hq _].
      destruct (cut_literal_decision s 0 seq (q :: l) q Htrail)
        as (p & Hp & _ & Ha); [exact Hnone|left|done|].
      apply (Hnodec p); [by eapply list_elem_of_lookup_2|done]. }
  unfold conflict_analysis, getitem_Z, getitem.
  rewrite (proj2 (Z.leb_le 0 conflict_clause_id)) by done.
  rewrite Hcl, Ok_bind, Hrun, Ok_bind. simpl. rewrite Hcut. eauto.
Qed.

(** *** Two solvers of runs *)

Lemma solver_six_conflict_reached :
  ∃ s5, cdcl_at 5 50 solver_six_no_restart = Ok (Some (0, s5))
        ∧ unit_propagation 50 0 s5 = Ok (2, solver_six_conflict).
Proof.
  eexists. split; [vm_compute; reflexivity|]. vm_compute. reflexivity.
Qed.

Lemma solver_six_conflict_trail :
  trail_ok solver_six_conflict 0 [-1; -3; -4].
Proof.
  constructor.
  - vm_compute. reflexivity.
  - intros p Hp. revert p Hp. apply Forall_forall. by_compute.
  - intros p Hp. revert p Hp. apply Forall_forall. by_compute.
  - by_compute.
  - intros v Hv.
    do 5 (destruct v as [|v]; [first [discriminate Hv | by_compute]|]).
    discriminate Hv.
  - intros i p Hi.
    destruct i as [|[|[|i]]]; [..|discriminate Hi]; injection Hi as <-.
    + exists 6. split; [reflexivity|]. intros _. split; [lia|].
      exists [], []. split; [reflexivity|]. split; [constructor|].
      intros q Hq. by apply not_elem_of_nil in Hq.
    + exists 7. split; [reflexivity|]. intros _. split; [lia|].
      exists [1], []. split; [reflexivity|]. split; [by_compute|].
      intros q Hq _. apply list_elem_of_singleton in Hq as ->. by_compute.
    + exists 3. split; [reflexivity|]. intros _. split; [lia|].
      exists [1; 3], []. split; [reflexivity|]. split; [by_compute|].
      intros q Hq _. revert q Hq. apply Forall_forall. by_compute.
  - intros i p Hi Ha.
    destruct i as [|[|[|i]]]; [done|..|discriminate Hi];
      injection Hi as <-; discriminate Ha.
Qed.

(** The level-0 lemma at that solver: the analysis of the conflict
    clause 2 returns -1. *)
Example conflict_analysis_solver_six_conflict :
  ∃ s', conflict_analysis 50 2 0 solver_six_conflict = Ok (-1, s').
Proof.
  apply (conflict_analysis_level0 _ [-1; -3; -4] 50 2 [1; 3; 4]).
  - apply solver_six_conflict_trail.
  - apply (Forall_forall
             (λ p, antecedent solver_six_conflict !! Z.abs_nat p
                   ≠ Some (-1))).
    by_compute.
  - intros clause q Hc. revert q.
    apply (Forall_forall
             (λ q, lit_false (value solver_six_conflict) q
                   → level_of solver_six_conflict q = Some 0)).
    revert clause Hc.
    apply (Forall_forall
             (Forall (λ q, lit_false (value solver_six_conflict) q
                           → level_of solver_six_conflict q = Some 0))).
    by_compute.
  - simpl. lia.
  - lia.
  - reflexivity.
  - by_compute.
Qed.

Lemma solver_four_conflict_trail :
  trail_ok solver_four_conflict 1 [1; -2].
Proof.
  constructor.
  - vm_compute. reflexivity.
  - intros p Hp. revert p Hp. apply Forall_forall. by_compute.
  - intros p Hp. revert p Hp. apply Forall_forall. by_compute.
  - by_compute.
  - intros v Hv.
    do 3 (destruct v as [|v]; [first [discriminate Hv | by_compute]|]).
    discriminate Hv.
  - intros i p Hi.
    destruct i as [|[|i]]; [..|discriminate Hi]; injection Hi as <-.
    + exists (-1). split; [reflexivity|]. done.
    + exists 3. split; [reflexivity|]. intros _. split; [lia|].
      exists [-1], []. split; [reflexivity|]. split; [by_compute|].
      intros q Hq _. apply list_elem_of_singleton in Hq as ->. by_compute.
  - intros i p Hi Ha.
    destruct i as [|[|i]]; [done|..|discriminate Hi];
      injection Hi as <-; discriminate Ha.
Qed.

(** The First-UIP lemma at that solver, on the conflict clause 2. *)
Example find_one_uip_cut_solver_four_conflict :
  ∃ cut parents,
    find_one_uip_cut 50 solver_four_conflict 1 [-1; 2] = Ok (cut, parents)
    ∧ falsified solver_four_conflict (items cut)
    ∧ length (at_level solver_four_conflict 1 (items cut)) = 1%nat.
Proof.
  apply (find_one_uip_cut_one_literal _ 1 [1; -2]).
  - apply solver_four_conflict_trail.
  - lia.
  - simpl. lia.
  - by_compute.
  - by_compute.
Qed.

(** ** Restart and forget, on a database in order *)

(** *** The heap *)

Lemma heappush_spec x heap :
  StronglySorted entry_le heap →
  StronglySorted entry_le (heappush le_activity x heap)
  ∧ heappush le_activity x heap ≡ₚ x :: heap.
Proof.
  induction 1 as [|y heap Hsorted IH Hall]; simpl.
  - split; [repeat constructor|done].
  - change (le_activity x y) with (Qle_bool x.1 y.1).
    destruct (Qle_bool x.1 y.1) eqn:E.
    + apply Qle_bool_iff in E. split; [|reflexivity].
      constructor; [by constructor|]. constructor; [exact E|].
      eapply Forall_impl; [exact Hall|]. intros z Hz. unfold entry_le in *.
      by eapply Qle_trans.
    + destruct IH as [IHs IHp]. split.
      * constructor; [exact IHs|]. rewrite IHp. constructor; [|exact Hall].
        unfold entry_le. apply Qnot_lt_le. intros Hlt.
        apply Qlt_le_weak, Qle_bool_iff in Hlt. congruence.
      * rewrite IHp. apply Permutation_swap.
Qed.

(** The loop that fills the heap, from a heap that is sorted and entries
    [dropped] that were passed over or replaced: the heap it returns holds
    [keep] entries (or all of them, if there are fewer), and each of its
    entries is at least as large, that is at most as active, as each
    entry that is not in it. *)
Lemma fill_heap_spec keep scored heap dropped :
  (1 ≤ keep)%nat →
  (length heap ≤ keep)%nat →
  ((length heap < keep)%nat → dropped = []) →
  StronglySorted entry_le heap →
  (∀ h d, h ∈ heap → d ∈ dropped → entry_le d h) →
  ∃ heap' dropped',
    fill_heap keep scored heap = Ok heap'
    ∧ length heap' = (keep `min` (length heap + length scored))%nat
    ∧ (∀ h d, h ∈ heap' → d ∈ dropped' → entry_le d h)
    ∧ heap' ++ dropped'
      ≡ₚ heap ++ dropped ++ ((λ ca, ((- ca.2)%Q, ca.1)) <$> scored).
Proof.
  intros Hkeep. revert heap dropped.
  induction scored as [|[clause a] scored IH];
    intros heap dropped Hlen Hfull Hsorted Hord.
  - exists heap, dropped. simpl. rewrite app_nil_r.
    split; [reflexivity|]. split; [lia|]. split; [exact Hord|reflexivity].
  - simpl. destruct (decide (length heap < keep)%nat) as [Hlt|Hge].
    + destruct (heappush_spec ((- a)%Q, clause) heap Hsorted) as [Hs Hp].
      destruct (IH (heappush le_activity ((- a)%Q, clause) heap) [])
        as (heap' & dropped' & Hrun & Hlen' & Hord' & Hperm).
      * rewrite Hp. simpl. lia.
      * done.
      * exact Hs.
      * intros h d _ Hd. by apply not_elem_of_nil in Hd.
      * exists heap', dropped'. split; [exact Hrun|].
        split; [rewrite Hlen', Hp; simpl; lia|]. split; [exact Hord'|].
        rewrite Hperm, Hp, (Hfull Hlt). simpl.
        by rewrite Permutation_middle.
    + destruct heap as [|top heap]; [simpl in *; lia|]. simpl.
      apply StronglySorted_inv in Hsorted as [Hsorted Htop].
      unfold Qlt_bool. destruct (Qle_bool (- top.1) a) eqn:E; simpl.
      * apply Qle_bool_iff in E.
        destruct (IH (top :: heap) (((- a)%Q, clause) :: dropped))
          as (heap' & dropped' & Hrun & Hlen' & Hord' & Hperm).
        -- exact Hlen.
        -- simpl in *. lia.
        -- by constructor.
        -- intros h d Hh Hd. apply elem_of_cons in Hd as [->|Hd];
             [|by apply Hord].
           unfold entry_le. simpl.
           assert (top.1 <= h.1)%Q as Hth.
           { apply elem_of_cons in Hh as [->|Hh]; [apply Qle_refl|].
             rewrite Forall_forall in Htop. by apply Htop. }
           lra.
        -- exists heap', dropped'. split; [exact Hrun|].
           split; [rewrite Hlen'; simpl in *; lia|]. split; [exact Hord'|].
           rewrite Hperm. simpl. f_equiv. f_equiv.
           by rewrite Permutation_middle.
      * assert (a < - top.1)%Q as Hlt.
        { apply Qnot_le_lt. intros Hle. apply Qle_bool_iff in Hle.
          congruence. }
        unfold heapreplace. simpl.
        destruct (heappush_spec ((- a)%Q, clause) heap Hsorted) as [Hs Hp].
        destruct (IH (heappush le_activity ((- a)%Q, clause) heap)
                    (top :: dropped))
          as (heap' & dropped' & Hrun & Hlen' & Hord' & Hperm).
        -- rewrite Hp. simpl in *. lia.
        -- rewrite Hp. simpl in *. lia.
        -- exact Hs.
        -- intros h d Hh Hd. rewrite Hp in Hh.
           assert (entry_le top h) as Hth.
           { apply elem_of_cons in Hh as [->|Hh].
             - unfold entry_le. simpl. lra.
             - rewrite Forall_forall in Htop. by apply Htop. }
           apply elem_of_cons in Hd as [->|Hd]; [exact Hth|].
           unfold entry_le in *.
           eapply Qle_trans; [|exact Hth]. apply Hord; [left|done].
        -- exists heap', dropped'. split; [exact Hrun|].
           split; [rewrite Hlen', Hp; simpl in *; lia|].
           split; [exact Hord'|].
           rewrite Hperm, Hp. simpl.
           rewrite <- !Permutation_middle. apply Permutation_swap.
Qed.

(** *** Scoring the learnt clauses *)

Lemma dict_set_fresh {K V} `{EqDecision K} (k : K) (v : V) (d : list (K * V)) :
  k ∉ d.*1 → dict_set k v d = d ++ [(k, v)].
Proof.
  induction d as [|[k' v'] d IH]; [done|]. simpl. intros Hk.
  rewrite decide_False by set_solver. f_equal. apply IH. set_solver.
Qed.

Lemma score_clauses_spec s clauses acc :
  Forall (λ clause, clause ≠ []) clauses →
  NoDup (acc.*1 ++ (frozenset_sorted <$> clauses)) →
  score_clauses s clauses acc = Ok (acc ++ (scored_entry s <$> clauses)).
Proof.
  intros Hne. revert acc.
  induction Hne as [|clause clauses Hc Hne IH]; intros acc Hnd.
  - simpl. by rewrite app_nil_r.
  - simpl. unfold clause_activity.
    rewrite decide_False by (by destruct clause). simpl.
    apply NoDup_app in Hnd as (Hacc & Hdisj & Hcl).
    apply NoDup_cons in Hcl as [Hnotin Hcl].
    rewrite dict_set_fresh by (intros Hin; apply (Hdisj _ Hin); left).
    rewrite IH.
    + by rewrite <- app_assoc.
    + rewrite fmap_app. simpl. rewrite <- app_assoc. simpl.
      apply NoDup_app. split; [exact Hacc|]. split.
      * intros x Hx Hin. apply elem_of_cons in Hin as [->|Hin].
        -- apply (Hdisj _ Hx). left.
        -- apply (Hdisj _ Hx). by right.
      * by apply NoDup_cons.
Qed.


(** *** The whole of it *)

Lemma filter_all {A} (P : A → Prop) `{∀ x, Decision (P x)} (l : list A) :
  Forall P l → filter P l = l.
Proof.
  induction 1 as [|x l Hx _ IH]; [done|].
  by rewrite filter_cons_True, IH.
Qed.

Lemma restart_and_forget_spec s originals learned :
  learnt_database s originals learned →
  (2 ≤ length learned)%nat →
  arrays_sized s → levelled_assigned s →
  ∃ s' removed kept,
    restart_and_forget s = Ok s'
    ∧ (new_clause_limit s' == new_clause_limit s * (3 # 2))%Q
    ∧ formula s' = originals ++ kept
    ∧ learned ≡ₚ removed ++ kept
    ∧ length removed = (length learned / 2)%nat
    ∧ (∀ r c, r ∈ removed → c ∈ kept →
              (mean_activity s r <= mean_activity s c)%Q)
    ∧ sorted_new_clause_set s' = list_to_set (frozenset_sorted <$> kept)
    ∧ (∀ v, var_record s' v =
            if bool_decide (1 ≤ v ≤ num_literals s)%nat && above 0 s v
            then unassigned_record else var_record s v)
    ∧ (∀ k, k ∈ dom (assignment_history s') → k ≤ 0).
Proof.
  intros (Hform & Horig & Hset & Hnd & Hne & Hdisj) Hk Hsized Hsync.
  assert (size (sorted_new_clause_set s) = length learned) as Hsize.
  { rewrite Hset, size_list_to_set by done. apply length_fmap. }
  assert (1 ≤ length learned / 2)%nat as Hkeep.
  { pose proof (Nat.div_mod_eq (length learned) 2).
    pose proof (Nat.mod_upper_bound (length learned) 2). lia. }
  destruct (fill_heap_spec (length learned / 2)
              (scored_entry s <$> learned) [] [])
    as (heap & dropped & Hheap & Hlen & Hord & Hperm);
    [exact Hkeep|simpl; lia|done|constructor|
     intros h d Hh; by apply not_elem_of_nil in Hh|].
  simpl in Hperm. rewrite <- list_fmap_compose in Hperm.
  change ((λ ca, ((- ca.2)%Q, ca.1)) ∘ scored_entry s) with (heap_entry s)
    in Hperm.
  rewrite length_fmap in Hlen. cbn [length] in Hlen.
  assert (length heap = (length learned / 2)%nat) as Hlen'.
  { rewrite Hlen. pose proof (Nat.div_mod_eq (length learned) 2). lia. }
  clear Hlen.
  (* the canonical clauses of the heap *)
  assert (∀ h, h ∈ heap → ∃ c, c ∈ learned ∧ h = heap_entry s c) as Hfrom.
  { intros h Hh. assert (h ∈ heap_entry s <$> learned) as Hin.
    { rewrite <- Hperm. apply elem_of_app. by left. }
    apply list_elem_of_fmap in Hin as (c & -> & Hc). eauto. }
  assert (frozenset_sorted <$> heap.*2 = heap.*2) as Hcanon.
  { rewrite <- list_fmap_compose. apply list_fmap_ext. intros i h Hh.
    apply list_elem_of_lookup_2 in Hh. destruct (Hfrom h Hh) as (c & _ & ->).
    simpl. apply frozenset_sorted_idemp. }
  set (T := (list_to_set (frozenset_sorted <$> heap.*2) : gset (list Z))).
  assert (∀ x, x ∈ T ↔ x ∈ heap.*2) as HT.
  { intros x. unfold T. rewrite Hcanon. apply elem_of_list_to_set. }
  assert (∀ c c', c ∈ learned → c' ∈ learned →
            frozenset_sorted c = frozenset_sorted c' → c = c') as Hinj.
  { intros c c' Hc Hc' E.
    apply list_elem_of_lookup in Hc as [i Hi].
    apply list_elem_of_lookup in Hc' as [j Hj].
    assert (i = j) as ->; [|congruence].
    eapply NoDup_lookup; [exact Hnd| |]; rewrite list_lookup_fmap.
    - by rewrite Hi.
    - rewrite Hj. simpl. by rewrite E. }
  assert (∀ c, c ∈ learned →
            (frozenset_sorted c ∈ T ↔ heap_entry s c ∈ heap)) as Hmem.
  { intros c Hc. rewrite HT. split.
    - intros Hin. apply list_elem_of_fmap in Hin as (h & E & Hh).
      destruct (Hfrom h Hh) as (c' & Hc' & ->). simpl in E.
      by rewrite (Hinj c c' Hc Hc' E).
    - intros Hin. apply list_elem_of_fmap. by exists (heap_entry s c). }
  set (removed := filter (λ c, frozenset_sorted c ∈ T) learned).
  set (kept := filter (λ c, frozenset_sorted c ∉ T) learned).
  assert (NoDup learned) as Hnd' by (by apply NoDup_fmap_1 in Hnd).
  assert (NoDup (heap_entry s <$> learned)) as Hnde.
  { apply NoDup_fmap_2_strong; [|done]. intros c c' Hc Hc' E.
    apply Hinj; [done..|]. by injection E. }
  assert (heap_entry s <$> removed ≡ₚ heap) as Hrem.
  { apply NoDup_Permutation.
    - apply NoDup_fmap_2_strong; [|by apply NoDup_filter].
      intros c c' Hc Hc' E.
      apply list_elem_of_filter in Hc as [_ Hc].
      apply list_elem_of_filter in Hc' as [_ Hc'].
      apply Hinj; [done..|]. by injection E.
    - rewrite <- Hperm in Hnde. by apply NoDup_app in Hnde as [? _].
    - intros x. rewrite list_elem_of_fmap. split.
      + intros (c & -> & Hc). apply list_elem_of_filter in Hc as [HcT Hc].
        by apply Hmem.
      + intros Hx. destruct (Hfrom x Hx) as (c & Hc & ->).
        exists c. split; [done|]. apply list_elem_of_filter.
        split; [by apply Hmem|done]. }
  (* the run *)
  set (s1 := set_new_clause_limit (Qred (new_clause_limit s * (3 # 2))) s).
  set (s2 := set_sorted_new_clause_set (sorted_new_clause_set s1 ∖ T)
               (set_formula (originals ++ kept) s1)).
  destruct (backtrack_run 0 s2) as (s' & Hs' & Hrec & Hhist & Hform' & Hnum'
                                     & Hset' & Hlim' & Hact');
    [lia|exact Hsized|exact Hsync|].
  exists s', removed, kept. split.
  { unfold restart_and_forget. fold s1.
    change (formula s1) with (formula s).
    change (sorted_original_formula_set s1)
      with (sorted_original_formula_set s).
    change (sorted_new_clause_set s1) with (sorted_new_clause_set s).
    rewrite Horig, Hform, drop_app_length, Hsize.
    rewrite score_clauses_spec by done. rewrite Ok_bind, app_nil_l.
    change (scored_entry s1) with (scored_entry s).
    rewrite Hheap, Ok_bind.
    fold T. rewrite filter_app.
    rewrite (filter_all (λ clause, frozenset_sorted clause ∉ T) originals).
    - exact Hs'.
    - apply Forall_forall. intros c Hc Hin. apply HT in Hin.
      apply list_elem_of_fmap in Hin as (h & E & Hh).
      destruct (Hfrom h Hh) as (c' & Hc' & ->). simpl in E.
      apply (Hdisj c Hc). rewrite E. by apply list_elem_of_fmap_2. }
  split; [rewrite Hlim'; simpl; apply Qred_correct|].
  split; [rewrite Hform'; reflexivity|].
  split; [symmetry; apply filter_app_complement|].
  split; [by rewrite <- Hlen', <- Hrem, length_fmap|].
  split.
  { intros r c Hr Hc.
    apply list_elem_of_filter in Hr as [HrT Hr].
    apply list_elem_of_filter in Hc as [HcT Hc].
    assert (heap_entry s r ∈ heap) as Hrh by (by apply Hmem).
    assert (heap_entry s c ∈ dropped) as Hcd.
    { assert (heap_entry s c ∈ heap ++ dropped) as Hin.
      { rewrite Hperm. by apply list_elem_of_fmap_2. }
      apply elem_of_app in Hin as [Hin|Hin]; [|done].
      by apply Hmem in Hin. }
    specialize (Hord _ _ Hrh Hcd). unfold entry_le in Hord. simpl in Hord.
    lra. }
  split.
  { rewrite Hset'. simpl. rewrite Hset. apply set_eq. intros x.
    rewrite elem_of_difference, !elem_of_list_to_set, !list_elem_of_fmap.
    split.
    - intros [(c & -> & Hc) HxT]. exists c. split; [done|].
      by apply list_elem_of_filter.
    - intros (c & -> & Hc). apply list_elem_of_filter in Hc as [HcT Hc].
      eauto. }
  split; [exact Hrec|].
  intros k Hkdom. rewrite Hhist in Hkdom. apply elem_of_dom in Hkdom as [l Hl].
  apply map_lookup_filter_Some in Hl as [_ Hle]. exact Hle.
Qed.

Lemma solver_six_turn5_reached :
  cdcl_at 5 50 solver_six = Ok (Some (0, solver_six_turn5)).
Proof. vm_compute. reflexivity. Qed.

Lemma solver_six_turn5_database :
  learnt_database solver_six_turn5 six_clauses [[-1]; [1; -3]].
Proof.
  split; [reflexivity|]. split; [vm_compute; reflexivity|].
  split; [vm_compute; reflexivity|].
  split; [by_compute|]. split; [by_compute|].
  intros c Hc. revert c Hc. apply Forall_forall. by_compute.
Qed.

(** The theorem at a solver of a run: of the two learnt clauses one is
    removed, the one of the lesser activity. *)
Example restart_and_forget_solver_six_turn5 :
  ∃ s' removed kept,
    restart_and_forget solver_six_turn5 = Ok s'
    ∧ formula s' = six_clauses ++ kept
    ∧ [[-1]; [1; -3]] ≡ₚ removed ++ kept
    ∧ length removed = 1%nat
    ∧ (∀ r c, r ∈ removed → c ∈ kept →
              (mean_activity solver_six_turn5 r
               <= mean_activity solver_six_turn5 c)%Q).
Proof.
  destruct (restart_and_forget_spec solver_six_turn5 six_clauses
              [[-1]; [1; -3]])
    as (s' & removed & kept & Hrun & _ & Hform & Hperm & Hlen & Hord & _).
  - apply solver_six_turn5_database.
  - simpl. lia.
  - repeat split.
  - intros v d Hrange Hd Hpos. simpl in Hrange.
    assert (v = 1 ∨ v = 2 ∨ v = 3 ∨ v = 4)%nat as [->|[->|[->| ->]]] by lia;
      first [by_compute | vm_compute in Hd; injection Hd as <-; lia].
  - exists s', removed, kept. eauto.
Qed.

(** ** The loop of [cdcl], turn by turn *)

(** The solver at the head of the loop after [n] turns is a solver of the
    run: the loop goes on from it. *)
Lemma cdcl_loop_turns n m inner lvl s lvl' s' :
  cdcl_turns n inner lvl s = Ok (Some (lvl', s')) →
  cdcl_loop (n + m) inner lvl s = cdcl_loop m inner lvl' s'.
Proof.
  revert lvl s. induction n as [|n IH]; intros lvl s H.
  - simpl in H. by injection H as -> ->.
  - simpl in *. destruct (all_variables_assigned s); [discriminate|].
    destruct (cdcl_step inner lvl s) as [[v|[l s1]]| |]; simpl in *;
      try discriminate.
    by apply IH.
Qed.

Lemma cdcl_at_turns n m inner s lvl' s' :
  cdcl_at n inner s = Ok (Some (lvl', s')) →
  cdcl (n + m) inner s = cdcl_loop m inner lvl' s'.
Proof.
  unfold cdcl_at, cdcl. destruct (cdcl_start s) as [s1| |]; simpl;
    try discriminate.
  apply cdcl_loop_turns.
Qed.

(** ** A verdict SAT on an unsatisfiable formula *)

(** No assignment of the variables satisfies [six_clauses]: one of the
    clauses has all its literals false. *)
Lemma six_clauses_unsat (a : nat → bool) :
  existsb (forallb (λ lit, negb (holds a lit))) six_clauses = true.
Proof.
  unfold six_clauses, holds. simpl.
  destruct (a (Pos.to_nat 1)), (a (Pos.to_nat 2)), (a (Pos.to_nat 3)),
    (a (Pos.to_nat 4)); reflexivity.
Qed.

(** C1 (the code departs from the claim). On the six clauses, with
    restarts enabled, [cdcl] returns [True] and the assignment it leaves,
    -1 2 -3 -4, makes every literal of the original clause [1; 3; 4] false:
    [check_clause_status] answers UNSAT for it. *)
Theorem cdcl_true_with_false_clause :
  ∃ s', cdcl 10 50 solver_six = Ok (true, s')
    ∧ solution s' = [-1; 2; -3; -4]
    ∧ [1; 3; 4] ∈ six_clauses
    ∧ check_clause_status s' [1; 3; 4] = Ok UNSAT
    ∧ Forall (lit_false (value s')) [1; 3; 4].
Proof.
  eexists. split; [vm_compute; reflexivity|].
  split; [vm_compute; reflexivity|].
  split; [unfold six_clauses; set_solver|].
  split; [vm_compute; reflexivity|].
  by_compute.
Qed.

(** The same verdict on the formula that is the empty clause alone,
    restarts disabled: the first pass of [unit_propagation] passes over
    the answer UNSAT, and the only variable is then decided. *)
Lemma cdcl_true_on_empty_clause :
  ∃ s', cdcl 10 50 solver_empty_clause = Ok (true, s')
    ∧ formula s' = [[]]
    ∧ check_clause_status s' [] = Ok UNSAT.
Proof.
  eexists. split; [vm_compute; reflexivity|].
  split; vm_compute; reflexivity.
Qed.

(** ** A conflict at level 0 that does not end the search *)

(** C2 (the code departs from the claim). In the run on the six clauses
    the sixth turn starts at level 0 with two learnt clauses; the restart
    forgets the clause [-1], and the antecedent of variable 1 then points
    at another clause. [unit_propagation] at level 0 reports the conflict
    clause 2, [conflict_analysis] of it at level 0 returns 0, which is not
    negative, the turn goes on to a seventh, and [cdcl] returns [True]. *)
Theorem level0_conflict_not_unsat :
  ∃ s5 sr sc sa s6 s',
    cdcl_at 5 50 solver_six = Ok (Some (0, s5))
    ∧ restart_check 0 s5 = Ok (0, sr)
    ∧ unit_propagation 50 0 sr = Ok (2, sc)
    ∧ conflict_analysis 50 2 0 sc = Ok (0, sa)
    ∧ cdcl_at 6 50 solver_six = Ok (Some (0, s6))
    ∧ cdcl 10 50 solver_six = Ok (true, s').
Proof.
  do 6 eexists.
  split; [vm_compute; reflexivity|].
  split; [vm_compute; reflexivity|].
  split; [vm_compute; reflexivity|].
  split; [vm_compute; reflexivity|].
  split; vm_compute; reflexivity.
Qed.

(** With restarts disabled the same run ends in the verdict [False]: the
    conflict at level 0 is resolved with the clause [-1] down to the empty
    clause. *)
Lemma cdcl_false_without_restart :
  ∃ s', cdcl 10 50 solver_six_no_restart = Ok (false, s').
Proof. eexists. vm_compute. reflexivity. Qed.

(** ** A learnt clause with no literal of the conflict's level *)

(** C3 (the code departs from the claim). In the run on the seven clauses
    the ninth turn is at level 2, after the decisions 2 and 5.
    [unit_propagation] assigns 6 and reports clause 2, [1; 3; 4], whose
    literals were all made false at level 0; the cut of
    [find_one_uip_cut] is that clause, and none of its literals is of
    level 2. *)
Theorem learnt_clause_without_current_level :
  ∃ s8 sc parents,
    cdcl_at 8 50 solver_seven = Ok (Some (2, s8))
    ∧ restart_check 2 s8 = Ok (2, s8)
    ∧ unit_propagation 50 2 s8 = Ok (2, sc)
    ∧ formula sc !! 2%nat = Some [1; 3; 4]
    ∧ find_one_uip_cut 50 sc 2 [1; 3; 4] = Ok (PySet [1; 3; 4], parents)
    ∧ count_current_lvl sc 2 [1; 3; 4] = Ok 0%nat
    ∧ (decision_level sc !! 1%nat, decision_level sc !! 3%nat,
       decision_level sc !! 4%nat) = (Some 0, Some 0, Some 0).
Proof.
  do 3 eexists.
  split; [vm_compute; reflexivity|].
  split; [vm_compute; reflexivity|].
  split; [vm_compute; reflexivity|].
  split; [vm_compute; reflexivity|].
  split; [vm_compute; reflexivity|].
  split; vm_compute; reflexivity.
Qed.

(** ** A falsified clause that unit propagation does not report *)

(** C4 (the code departs from the claim). The seventh turn of the run on
    the six clauses starts at level 0 with every literal of clause 2,
    [1; 3; 4], false and no unit clause; there is no restart;
    [unit_propagation] returns -111 and clause 2 is still falsified. *)
Theorem unit_propagation_misses_conflict :
  ∃ s6 s6',
    cdcl_at 6 50 solver_six = Ok (Some (0, s6))
    ∧ restart_check 0 s6 = Ok (0, s6)
    ∧ formula s6 !! 2%nat = Some [1; 3; 4]
    ∧ check_clause_status s6 [1; 3; 4] = Ok UNSAT
    ∧ unit_propagation 50 0 s6 = Ok (-111, s6')
    ∧ formula s6' !! 2%nat = Some [1; 3; 4]
    ∧ check_clause_status s6' [1; 3; 4] = Ok UNSAT.
Proof.
  do 2 eexists.
  split; [vm_compute; reflexivity|].
  split; [vm_compute; reflexivity|].
  split; [vm_compute; reflexivity|].
  split; [vm_compute; reflexivity|].
  split; [vm_compute; reflexivity|].
  split; vm_compute; reflexivity.
Qed.

(** The same at the very first call, on the empty clause alone. *)
Lemma unit_propagation_misses_empty_clause :
  ∃ s0 s0',
    cdcl_at 0 50 solver_empty_clause = Ok (Some (0, s0))
    ∧ formula s0 !! 0%nat = Some []
    ∧ check_clause_status s0 [] = Ok UNSAT
    ∧ unit_propagation 50 0 s0 = Ok (-111, s0').
Proof.
  do 2 eexists.
  split; [vm_compute; reflexivity|].
  split; [vm_compute; reflexivity|].
  split; vm_compute; reflexivity.
Qed.

(** ** Restart and forget, the runs *)

(** C7 (the code departs from the claim). On the four clauses over two
    variables the limit is 0, so the first learnt clause exceeds it. The
    third turn starts with that one learnt clause, [-1]; the number of
    clauses to put in the heap is 1 / 2 = 0, the test
    [len(max_heap) < 0] fails, and [max_heap[0]] on the empty heap raises
    [IndexError]: nothing is removed, the limit is not raised, there is no
    backtrack, and [cdcl] ends with the exception. *)
Theorem restart_and_forget_raises :
  ∃ s2,
    cdcl_at 2 50 solver_four = Ok (Some (0, s2))
    ∧ random_restart s2 = true
    ∧ drop 4 (formula s2) = [[-1]]
    ∧ size (sorted_new_clause_set s2) = 1%nat
    ∧ new_clause_limit s2 = 0%Q
    ∧ restart_and_forget s2 = Raise IndexError
    ∧ cdcl 10 50 solver_four = Raise IndexError.
Proof.
  eexists.
  split; [vm_compute; reflexivity|].
  split; [vm_compute; reflexivity|].
  split; [vm_compute; reflexivity|].
  split; [vm_compute; reflexivity|].
  split; [vm_compute; reflexivity|].
  split; vm_compute; reflexivity.
Qed.

(** C8 (the code departs from the claim). At the head of the sixth turn of
    the run on the six clauses variable 1 is false at level 0 with
    antecedent 6, the learnt clause [-1]. [restart_and_forget] discards
    that clause, the less active of the two learnt ones, and leaves the
    antecedent as it is: variable 1 is still false at level 0, and index 6
    of the new formula is the clause [1; -3], which does not hold the
    literal -1. *)
Theorem restart_and_forget_stale_antecedent :
  ∃ s5 s5',
    cdcl_at 5 50 solver_six = Ok (Some (0, s5))
    ∧ var_record s5 1 = (Some (-1), Some 0, Some 6, true)
    ∧ formula s5 !! 6%nat = Some [-1]
    ∧ restart_and_forget s5 = Ok s5'
    ∧ var_record s5' 1 = (Some (-1), Some 0, Some 6, true)
    ∧ formula s5' = six_clauses ++ [[1; -3]]
    ∧ formula s5' !! 6%nat = Some [1; -3]
    ∧ ((-1) ∉ [1; -3])
    ∧ [-1] ∉ formula s5'.
Proof.
  do 2 eexists.
  split; [vm_compute; reflexivity|].
  split; [vm_compute; reflexivity|].
  split; [vm_compute; reflexivity|].
  split; [vm_compute; reflexivity|].
  split; [vm_compute; reflexivity|].
  split; [vm_compute; reflexivity|].
  split; [vm_compute; reflexivity|].
  split; by_compute.
Qed.

(** With an original clause written twice the database is not in order:
    the count of the set of originals, 6, is the position where the
    learnt clauses are taken to start, the second copy is scored with
    them, and here it is the least active. [restart_and_forget] removes
    both copies of the original clause [1; -3; -4] and neither of the two
    learnt clauses. *)
Lemma restart_and_forget_drops_original :
  ∃ s5 s5',
    cdcl_at 5 50 solver_repeated = Ok (Some (0, s5))
    ∧ formula s5 = six_clauses ++ [[-4; -3; 1]; [-1]; [1; -3]]
    ∧ restart_and_forget s5 = Ok s5'
    ∧ formula s5' =
        [[-1; 2]; [-1; -2]; [1; 3; 4]; [1; 3; -4]; [1; -3; 4]; [-1]; [1; -3]]
    ∧ size (sorted_new_clause_set s5') = 2%nat.
Proof.
  do 2 eexists.
  split; [vm_compute; reflexivity|].
  split; [vm_compute; reflexivity|].
  split; [vm_compute; reflexivity|].
  split; vm_compute; reflexivity.
Qed.

(** ** The two-clause heuristic *)

(** C9 (the code departs from the claim). On the formula [[1; 2]; [2; 3]]
    the pre-processing stores, at each position of the enumeration, the
    variable found there: 0 ↦ 1, 1 ↦ 2, 2 ↦ 3. Variable 2 is in two
    clauses of two literals and its entry is 3; variable 3 is in one and
    has no entry, which reads as 0. *)
Theorem pre_process_two_clause_by_position :
  two_clause_dict solver_two_clause = [(0%nat, 1); (1%nat, 2); (2%nat, 3)]
  ∧ binary_clauses_with (formula solver_two_clause) 2 = 2%nat
  ∧ two_clause_dict_at solver_two_clause 2 = 3
  ∧ binary_clauses_with (formula solver_two_clause) 3 = 1%nat
  ∧ two_clause_dict_at solver_two_clause 3 = 0.
Proof. repeat split; vm_compute; reflexivity. Qed.

(** C10 (the code departs from the claim). On the formula
    [[2; 1]; [3; 4]] the dictionary after the pre-processing is
    0 ↦ 2, 1 ↦ 1, 2 ↦ 3, 3 ↦ 4 and no variable is assigned. The sort is
    in increasing order of the counts, so [two_clause_selection] returns
    the literal 1, of count 1, the least of all, although the unassigned
    variable 3 has count 4. *)
Theorem two_clause_selection_takes_least :
  ∃ s',
    two_clause_dict solver_two_clause' =
      [(0%nat, 2); (1%nat, 1); (2%nat, 3); (3%nat, 4)]
    ∧ value solver_two_clause' = [0; 0; 0; 0; 0]
    ∧ two_clause_selection solver_two_clause' = Ok (Some 1, s')
    ∧ two_clause_dict_at solver_two_clause' 1 = 1
    ∧ two_clause_dict_at solver_two_clause' 3 = 4.
Proof.
  eexists.
  split; [vm_compute; reflexivity|].
  split; [vm_compute; reflexivity|].
  split; [vm_compute; reflexivity|].
  split; vm_compute; reflexivity.
Qed.

(** On [[1; 2]; [2; 3]] the first entry of the sorted dictionary is the
    position 0, which is never assigned: the selection returns the
    literal 0 and the decision raises [ZeroDivisionError]. *)
Lemma two_clause_selection_zero :
  ∃ s',
    two_clause_selection solver_two_clause = Ok (Some 0, s')
    ∧ cdcl 10 50 solver_two_clause = Raise ZeroDivisionError.
Proof.
  eexists. split; vm_compute; reflexivity.
Qed.
